(** * jira-dev-metrics: the temporal-attribution core of [report.py]

    A shallow embedding of [dateutils.py] and of the four functions of
    [report.py] that carry the algorithmic content ([find_at_time],
    [build_changelog], [calculate_workload], [group_by_lead]), followed by
    the properties of these functions.

    Modelling conventions.
    - A Python [dict] is an insertion-ordered association list with unique
      keys ([dict K V]); iteration order is list order, which is what
      [max(d, key=d.get)] and [d.items()] observe.
    - A raised exception is a value of [exn] carried by [result].
    - [datetime.strptime] is a library function: the embedding takes it as a
      parameter [strptime : string -> option Z] which sends a timestamp string
      to its instant, counted in microseconds since the epoch (UTC), and
      yields [None] where Python raises [ValueError].  [Iso.strptime] is a
      concrete instance for the canonical format, used by the examples.
    - [timedelta.total_seconds()] is the exact microsecond count divided by
      [10^6]; durations are kept as that exact integer count of microseconds,
      so rounding of Python floats is outside the model: the properties below
      are about signs, shapes, comparisons of stored values and control flow,
      not about exact sums of floats.
    - Datetime objects are timezone-aware instants, as [strptime] with [%z]
      returns them; naive datetime objects are outside the model. *)

From Stdlib Require Import ZArith List String Ascii Lia Bool.
From stdpp Require Import base decidable option list strings.
Import ListNotations.
Local Open Scope string_scope.
Local Open Scope list_scope.
Local Open Scope Z_scope.

(** ** Exceptions *)

Inductive exn : Type := ValueError | IndexError | KeyError.

Inductive result (A : Type) : Type :=
| Ok (a : A)
| Err (e : exn).
Arguments Ok {A} a.
Arguments Err {A} e.

Definition rbind {A B : Type} (m : result A) (k : A -> result B) : result B :=
  match m with
  | Ok a => k a
  | Err e => Err e
  end.

Notation "'let*' x ':=' m 'in' k" := (rbind m (fun x => k))
  (at level 10, x name, m at level 100, k at level 200).
Notation "'let*' ' p ':=' m 'in' k" :=
  (rbind m (fun x => match x with p => k end))
  (at level 10, p pattern, m at level 100, k at level 200).

(** ** Python containers *)

Abbreviation dict K V := (list (K * V)) (only parsing).

Section Dict.
Context {K V : Type} `{EqDecision K}.

(** [d.get(k)] *)
Fixpoint dict_get (k : K) (d : dict K V) : option V :=
  match d with
  | [] => None
  | (k', v) :: d' => if decide (k = k') then Some v else dict_get k d'
  end.

(** [d[k]] *)
Definition dict_getitem (k : K) (d : dict K V) : result V :=
  match dict_get k d with
  | Some v => Ok v
  | None => Err KeyError
  end.

(** [d[k] = v]: an existing key keeps its position, a new one goes last. *)
Fixpoint dict_setitem (k : K) (v : V) (d : dict K V) : dict K V :=
  match d with
  | [] => [(k, v)]
  | (k', v') :: d' =>
      if decide (k = k') then (k, v) :: d' else (k', v') :: dict_setitem k v d'
  end.

(** [d.setdefault(k, v)], as the dictionary it leaves behind. *)
Definition dict_setdefault (k : K) (v : V) (d : dict K V) : dict K V :=
  match dict_get k d with
  | Some _ => d
  | None => dict_setitem k v d
  end.

Definition keys (d : dict K V) : list K := map fst d.
Definition values (d : dict K V) : list V := map snd d.
End Dict.

(** [l[i]] with Python's negative indices. *)
Definition py_index {A : Type} (l : list A) (i : Z) : result A :=
  let n := Z.of_nat (length l) in
  let j := if i <? 0 then i + n else i in
  if (0 <=? j) && (j <? n)
  then match nth_error l (Z.to_nat j) with
       | Some a => Ok a
       | None => Err IndexError
       end
  else Err IndexError.

(** [enumerate(l)], counting from [n]. *)
Fixpoint enumerate_from {A : Type} (n : Z) (l : list A) : list (Z * A) :=
  match l with
  | [] => []
  | a :: l' => (n, a) :: enumerate_from (n + 1) l'
  end.

Definition enumerate {A : Type} (l : list A) : list (Z * A) := enumerate_from 0 l.

(** ** Data model *)

(** One entry of a timeline: [{"date": .., "from": .., "to": ..}]. *)
Record transition : Type := Transition {
  t_date : string;
  t_from : option string;
  t_to : option string
}.

(** The value of [changelog[issue_id]]. *)
Record fields : Type := Fields {
  statuses : list transition;
  assignees : list transition
}.

Abbreviation changelog_t := (dict string fields) (only parsing).

(** [assignee -> seconds], and [issue -> assignee -> seconds]. *)
Abbreviation scores_t := (dict (option string) Z) (only parsing).
Abbreviation workload_t := (dict string scores_t) (only parsing).

(** The part of the search response that [build_changelog] reads. *)
Record item : Type := Item {
  i_field : string;
  i_fieldtype : string;
  i_from : option string;
  i_to : option string
}.

Record history : Type := History {
  h_created : string;
  h_items : list item
}.

Record issue : Type := Issue {
  issue_id : string;
  issue_created : string;          (* issue["fields"]["created"] *)
  issue_status_id : string;        (* issue["fields"]["status"]["id"] *)
  issue_assignee : option string;  (* accountId, None when unassigned *)
  issue_histories : list history   (* issue["changelog"]["histories"] *)
}.

#[global] Instance transition_eq_dec : EqDecision transition.
Proof. solve_decision. Defined.

(** ** dateutils.py and report.py *)

Section Core.
Variable strptime : string -> option Z.

(** [dateutils.strptime] *)
Definition parse_date (s : string) : result Z :=
  match strptime s with
  | Some t => Ok t
  | None => Err ValueError
  end.

(** An argument of [datetime_compare]: a string, or a datetime object that
    is timezone-aware, given by its instant.  Naive datetime objects, which
    cannot be compared with the aware ones that [strptime] returns, are
    outside the model. *)
Inductive date_arg : Type :=
| DStr (s : string)
| DTime (t : Z).

Definition as_datetime (a : date_arg) : result Z :=
  match a with
  | DStr s => parse_date s
  | DTime t => Ok t
  end.

(** [dateutils.datetime_compare] *)
Definition datetime_compare (a b : date_arg) : result Z :=
  let* start := as_datetime a in
  let* end_ := as_datetime b in
  let span := end_ - start in
  Ok (- span).

(** *** find_at_time *)

Fixpoint find_at_time_loop (items : list transition) (date : date_arg)
    (inclusive : bool) (previous : option transition)
    : result (option transition) :=
  match items with
  | [] => Ok previous
  | item :: rest =>
      let* diff := datetime_compare (DStr (t_date item)) date in
      if (diff <? 0) || (inclusive && (diff =? 0))
      then find_at_time_loop rest date inclusive (Some item)
      else Ok previous
  end.

(** [fields[timeline_key]] *)
Definition timeline (f : fields) (timeline_key : string)
    : result (list transition) :=
  if decide (timeline_key = "statuses") then Ok (statuses f)
  else if decide (timeline_key = "assignees") then Ok (assignees f)
  else Err KeyError.

Definition find_at_time (changelog : changelog_t) (date : date_arg)
    (issue_id : string) (timeline_key : string) (inclusive : bool)
    : result transition :=
  let* f := dict_getitem issue_id changelog in
  let* items := timeline f timeline_key in
  let* previous := find_at_time_loop items date inclusive None in
  match previous with
  | Some p => Ok p
  | None => py_index items 0
  end.

(** *** build_changelog *)

Definition change (h : history) (it : item) : transition :=
  Transition (h_created h) (i_from it) (i_to it).

(** The body of [for item in history["items"]]. *)
Definition collect_item (h : history)
    (acc : list transition * list transition) (it : item)
    : list transition * list transition :=
  let '(status_changes, assignee_changes) := acc in
  if bool_decide (i_field it = "status") && bool_decide (i_fieldtype it = "jira")
  then (status_changes ++ [change h it], assignee_changes)
  else if bool_decide (i_field it = "assignee")
            && bool_decide (i_fieldtype it = "jira")
  then (status_changes, assignee_changes ++ [change h it])
  else (status_changes, assignee_changes).

(** The body of [for history in issue["changelog"]["histories"]]. *)
Definition collect_history (acc : list transition * list transition)
    (h : history) : list transition * list transition :=
  fold_left (collect_item h) (h_items h) acc.

Definition collect_changes (i : issue)
    : list transition * list transition :=
  fold_left collect_history (issue_histories i) ([], []).

Definition initial_status (i : issue) (status_changes : list transition)
    : transition :=
  Transition (issue_created i) None
    (match last status_changes with
     | Some c => t_from c
     | None => Some (issue_status_id i)
     end).

Definition initial_assignee (i : issue) (assignee_changes : list transition)
    : transition :=
  Transition (issue_created i) None
    (match last assignee_changes with
     | Some c => t_from c
     | None => issue_assignee i
     end).

Definition issue_fields (i : issue) : fields :=
  let '(status_changes, assignee_changes) := collect_changes i in
  Fields (rev (status_changes ++ [initial_status i status_changes]))
         (rev (assignee_changes ++ [initial_assignee i assignee_changes])).

Definition build_changelog (response : list issue) : changelog_t :=
  fold_left (fun changelog i => dict_setitem (issue_id i) (issue_fields i) changelog)
            response [].

(** *** calculate_workload *)

(** [[i for i, log in enumerate(statuses) if log["from"] == target_status]] *)
Definition target_status_idx (statuses : list transition)
    (target_status : option string) : list Z :=
  map fst (filter (fun il => bool_decide (t_from (snd il) = target_status))
                  (enumerate statuses)).

(** [per_issue.setdefault(issue_id, {}).setdefault(assignee, 0)]: the inner
    dictionary is the object stored under [issue_id], so the second
    [setdefault] is seen through [per_issue]. *)
Definition touch (issue_id : string) (assignee : option string)
    (per_issue : workload_t) : workload_t :=
  let per_issue := dict_setdefault issue_id [] per_issue in
  match dict_get issue_id per_issue with
  | Some scores => dict_setitem issue_id (dict_setdefault assignee 0 scores) per_issue
  | None => per_issue
  end.

(** [per_issue[issue_id][assignee] += delta] *)
Definition credit (issue_id : string) (assignee : option string) (delta : Z)
    (per_issue : workload_t) : result workload_t :=
  let* scores := dict_getitem issue_id per_issue in
  let* v := dict_getitem assignee scores in
  Ok (dict_setitem issue_id (dict_setitem assignee (v + delta) scores) per_issue).

(** The [while assignee_idx < len(fields["assignees"])] loop of one window.
    [rest] is [fields["assignees"][assignee_idx:]]; the loop returns the
    cursor and the allocation it leaves. *)
Fixpoint sweep (rest : list transition) (assignee_idx : nat)
    (issue_id : string) (start end_ : Z) (per_issue : workload_t)
    : result (nat * workload_t) :=
  match rest with
  | [] => Ok (assignee_idx, per_issue)
  | a :: rest' =>
      let* date := parse_date (t_date a) in
      let assignee := t_from a in
      if date <? start
      then sweep rest' (S assignee_idx) issue_id start end_ per_issue
      else
        let per_issue := touch issue_id assignee per_issue in
        if date <? end_
        then
          let* per_issue :=
            let* diff := datetime_compare (DTime date) (DTime start) in
            credit issue_id assignee diff per_issue in
          sweep rest' (S assignee_idx) issue_id date end_ per_issue
        else
          let* per_issue :=
            let* diff := datetime_compare (DTime end_) (DTime start) in
            credit issue_id assignee diff per_issue in
          Ok (assignee_idx, per_issue)
  end.

(** The [for i in target_status_idx] loop of one issue. *)
Fixpoint windows (idxs : list Z) (issue_id : string) (f : fields)
    (assignee_idx : nat) (per_issue : workload_t)
    : result (nat * workload_t) :=
  match idxs with
  | [] => Ok (assignee_idx, per_issue)
  | i :: idxs' =>
      let* before := py_index (statuses f) (i - 1) in
      let* start := parse_date (t_date before) in
      let* exit := py_index (statuses f) i in
      let* end_ := parse_date (t_date exit) in
      let* '(assignee_idx, per_issue) :=
        sweep (drop assignee_idx (assignees f)) assignee_idx issue_id
              start end_ per_issue in
      windows idxs' issue_id f assignee_idx per_issue
  end.

(** The body of [for issue_id, fields in changelog.items()]. *)
Definition workload_of_issue (target_status : option string)
    (issue_id : string) (f : fields) (per_issue : workload_t)
    : result workload_t :=
  let* '(_, per_issue) :=
    windows (target_status_idx (statuses f) target_status) issue_id f 0%nat
            per_issue in
  Ok per_issue.

Fixpoint workload_loop (items : list (string * fields))
    (target_status : option string) (per_issue : workload_t)
    : result workload_t :=
  match items with
  | [] => Ok per_issue
  | (issue_id, f) :: items' =>
      let* per_issue := workload_of_issue target_status issue_id f per_issue in
      workload_loop items' target_status per_issue
  end.

Definition calculate_workload (changelog : changelog_t)
    (target_status : option string) : result workload_t :=
  workload_loop changelog target_status [].
End Core.

(** *** group_by_lead *)

(** [max(assignee_scores, key=assignee_scores.get)] on the items after the
    first: [best] is the first key seen with the largest score so far. *)
Fixpoint max_by_score (best : option string * Z)
    (rest : list (option string * Z)) : option string * Z :=
  match rest with
  | [] => best
  | (k, v) :: rest' =>
      if snd best <? v then max_by_score (k, v) rest' else max_by_score best rest'
  end.

(** The lead and its score; [None] for an empty allocation, which the
    guard [if assignee_scores:] skips. *)
Definition lead_of (assignee_scores : scores_t)
    : option (option string * Z) :=
  match assignee_scores with
  | [] => None
  | kv :: rest => Some (max_by_score kv rest)
  end.

(** [per_leads.setdefault(lead, {}); per_leads[lead][issue_id] = score] *)
Definition record_lead (lead : option string) (issue_id : string) (score : Z)
    (per_leads : dict (option string) (dict string Z))
    : dict (option string) (dict string Z) :=
  let per_leads := dict_setdefault lead [] per_leads in
  match dict_get lead per_leads with
  | Some issues => dict_setitem lead (dict_setitem issue_id score issues) per_leads
  | None => per_leads
  end.

Definition group_step (per_leads : dict (option string) (dict string Z))
    (entry : string * scores_t) : dict (option string) (dict string Z) :=
  let '(issue_id, assignee_scores) := entry in
  match lead_of assignee_scores with
  | Some (lead_assignee, lead_score) =>
      record_lead lead_assignee issue_id lead_score per_leads
  | None => per_leads
  end.

Definition group_by_lead (workloads : workload_t)
    : dict (option string) (dict string Z) :=
  fold_left group_step workloads [].

(** ** A concrete [strptime] for the examples

    [Iso.strptime] reads the canonical layout of the tracker's timestamps,
    ["2023-01-02T14:30:00.123+0000"]: four-digit year, two-digit month, day,
    hour, minute and second, one to six fractional digits and a signed
    four-digit UTC offset.  Python's ["%Y-%m-%dT%H:%M:%S.%f%z"] accepts these
    strings and gives them the same instant. *)

Module Iso.
Definition digit (c : ascii) : option Z :=
  let n := Z.of_nat (nat_of_ascii c) in
  if (48 <=? n) && (n <=? 57) then Some (n - 48) else None.

Fixpoint number (acc : Z) (cs : list ascii) : option Z :=
  match cs with
  | [] => Some acc
  | c :: cs' =>
      match digit c with
      | Some d => number (10 * acc + d) cs'
      | None => None
      end
  end.

Definition is_leap (y : Z) : bool :=
  ((y mod 4 =? 0) && negb (y mod 100 =? 0)) || (y mod 400 =? 0).

Definition days_in_month (y m : Z) : Z :=
  if m =? 2 then (if is_leap y then 29 else 28)
  else if (m =? 4) || (m =? 6) || (m =? 9) || (m =? 11) then 30
  else 31.

(** Days from 1970-01-01 to the given date of the Gregorian calendar. *)
Definition days_from_civil (y m d : Z) : Z :=
  let y' := if m <=? 2 then y - 1 else y in
  let era := y' / 400 in
  let yoe := y' - era * 400 in
  let mp := if m <=? 2 then m + 9 else m - 3 in
  let doy := (153 * mp + 2) / 5 + d - 1 in
  let doe := yoe * 365 + yoe / 4 - yoe / 100 + doy in
  era * 146097 + doe - 719468.

(** The leading digits of [cs] and what follows them. *)
Fixpoint span_digits (cs : list ascii) : list ascii * list ascii :=
  match cs with
  | [] => ([], [])
  | c :: cs' =>
      match digit c with
      | Some _ => let '(ds, tail) := span_digits cs' in (c :: ds, tail)
      | None => ([], cs)
      end
  end.

(** [.%f] then [%z]: the fraction, padded to microseconds, and the offset
    in seconds. *)
Definition fraction_and_offset (cs : list ascii) : option (Z * Z) :=
  let '(frac, tail) := span_digits cs in
  let n := length frac in
  if (1 <=? n)%nat && (n <=? 6)%nat then
    match number 0 frac, tail with
    | Some f, [sign; o1; o2; o3; o4] =>
        match number 0 [o1; o2], number 0 [o3; o4] with
        | Some oh, Some om =>
            let off := oh * 3600 + om * 60 in
            let us := f * 10 ^ Z.of_nat (6 - n) in
            if negb ((oh <? 24) && (om <? 60)) then None
            else if Ascii.eqb sign "+" then Some (us, off)
            else if Ascii.eqb sign "-" then Some (us, - off)
            else None
        | _, _ => None
        end
    | _, _ => None
    end
  else None.

Definition strptime (s : string) : option Z :=
  match list_ascii_of_string s with
  | y1 :: y2 :: y3 :: y4 :: "-"%char :: m1 :: m2 :: "-"%char :: d1 :: d2
    :: "T"%char :: h1 :: h2 :: ":"%char :: n1 :: n2 :: ":"%char :: s1 :: s2
    :: "."%char :: rest =>
      match number 0 [y1; y2; y3; y4], number 0 [m1; m2], number 0 [d1; d2],
            number 0 [h1; h2], number 0 [n1; n2], number 0 [s1; s2],
            fraction_and_offset rest with
      | Some y, Some m, Some d, Some hh, Some mm, Some ss, Some (us, off) =>
          if (1 <=? y) && (1 <=? m) && (m <=? 12) && (1 <=? d)
             && (d <=? days_in_month y m) && (hh <? 24) && (mm <? 60)
             && (ss <? 60)
          then Some ((days_from_civil y m d * 86400 + hh * 3600 + mm * 60
                      + ss - off) * 1000000 + us)
          else None
      | _, _, _, _, _, _, _ => None
      end
  | _ => None
  end.
End Iso.

(** ** Scenarios *)

Module Scenario.
Definition S0 : string := "10001".
Definition TARGET : string := "10111".
Definition A : string := "user-a".
Definition B : string := "user-b".

Definition t0 : string := "2023-01-01T10:00:00.000+0000".
Definition t1 : string := "2023-01-02T10:00:00.000+0000".
Definition t1h : string := "2023-01-02T12:00:00.000+0000".
Definition t2 : string := "2023-01-02T15:00:00.000+0000".

Definition seconds (n : Z) : Z := n * 1000000.

(** Scenario A: one reassignment in the middle of the window [t1, t2). *)
Definition statuses_A : list transition :=
  [ Transition t0 None (Some S0);
    Transition t1 (Some S0) (Some TARGET);
    Transition t2 (Some TARGET) (Some S0) ].
Definition assignees_A : list transition :=
  [ Transition t0 None (Some A);
    Transition t1h (Some A) (Some B) ].
Definition changelog_A : changelog_t :=
  [ ("I1", Fields statuses_A assignees_A) ].

(** Scenario B: the issue enters TARGET and never leaves it. *)
Definition statuses_B : list transition :=
  [ Transition t0 None (Some S0);
    Transition t1 (Some S0) (Some TARGET) ].
Definition changelog_B : changelog_t :=
  [ ("I1", Fields statuses_B assignees_A) ].

(** Scenario C: lead selection. *)
Definition workloads_C : workload_t :=
  [ ("I1", [ (Some A, seconds 5); (Some B, seconds 10) ]);
    ("I2", [ (Some A, seconds 20) ]) ].

(** The search response behind Scenario A: histories newest first. *)
Definition status_item (f t : string) : item :=
  Item "status" "jira" (Some f) (Some t).
Definition assignee_item (f t : string) : item :=
  Item "assignee" "jira" (Some f) (Some t).
Definition issue_A : issue :=
  Issue "I1" t0 S0 (Some B)
    [ History t2 [ status_item TARGET S0 ];
      History t1h [ assignee_item A B ];
      History t1 [ status_item S0 TARGET ] ].

(** A null target status: the issue of Scenario A's first two status
    entries, reassigned at [t2]. *)
Definition issue_null : issue :=
  Issue "I1" t0 TARGET (Some B)
    [ History t2 [ assignee_item A B ];
      History t1 [ status_item S0 TARGET ] ].

(** Scenario A followed by a later status change whose history record
    carries a timestamp that is not one. *)
Definition bad_history : history :=
  History "not-a-date" [ status_item S0 "10002" ].
Definition issue_unread : issue :=
  Issue "I1" t0 "10002" (Some B)
    [ bad_history;
      History t2 [ status_item TARGET S0 ];
      History t1h [ assignee_item A B ];
      History t1 [ status_item S0 TARGET ] ].

(** A status timeline with two transitions at the same instant: the issue
    moves to TARGET in the record that creates it. *)
Definition statuses_tie : list transition :=
  [ Transition t0 None (Some S0);
    Transition t0 (Some S0) (Some TARGET) ].
Definition changelog_tie : changelog_t :=
  [ ("I1", Fields statuses_tie assignees_A) ].

(** An issue whose only change record is stamped before its creation. *)
Definition issue_late : issue :=
  Issue "I1" t1 TARGET (Some A)
    [ History t0 [ status_item S0 TARGET ] ].

(** Scenario A with the reassignment stamped with a malformed date. *)
Definition issue_malformed_assignee : issue :=
  Issue "I1" t0 S0 (Some B)
    [ History t2 [ status_item TARGET S0 ];
      History "not-a-date" [ assignee_item A B ];
      History t1 [ status_item S0 TARGET ] ].

(** Scenario A with the entry into TARGET stamped with a malformed date. *)
Definition issue_malformed : issue :=
  Issue "I1" t0 S0 (Some B)
    [ History t2 [ status_item TARGET S0 ];
      History t1h [ assignee_item A B ];
      History "not-a-date" [ status_item S0 TARGET ] ].
End Scenario.

(** ** Vocabulary of the specification *)

Section Vocabulary.
Variable strptime : string -> option Z.

(** Non-decreasing by timestamp, every timestamp being an instant. *)
Fixpoint ascending_from (lo : Z) (tl : list transition) : bool :=
  match tl with
  | [] => true
  | t :: tl' =>
      match strptime (t_date t) with
      | Some z => (lo <=? z) && ascending_from z tl'
      | None => false
      end
  end.

Definition ascending (tl : list transition) : bool :=
  match tl with
  | [] => true
  | t :: tl' =>
      match strptime (t_date t) with
      | Some z => ascending_from z tl'
      | None => false
      end
  end.

(** The Timeline invariant of the data model: non-empty, non-decreasing,
    first element with [from = null]. *)
Definition is_timeline (tl : list transition) : bool :=
  match tl with
  | [] => false
  | t :: _ => bool_decide (t_from t = None) && ascending tl
  end.

(** History records newest first. *)
Fixpoint descending_from (hi : Z) (hs : list history) : bool :=
  match hs with
  | [] => true
  | h :: hs' =>
      match strptime (h_created h) with
      | Some z => (z <=? hi) && descending_from z hs'
      | None => false
      end
  end.

Definition newest_first (hs : list history) : bool :=
  match hs with
  | [] => true
  | h :: hs' =>
      match strptime (h_created h) with
      | Some z => descending_from z hs'
      | None => false
      end
  end.

(** No history record is stamped before the creation of its issue. *)
Definition created_first (i : issue) : bool :=
  match strptime (issue_created i) with
  | Some c =>
      forallb (fun h => match strptime (h_created h) with
                        | Some z => c <=? z
                        | None => false
                        end) (issue_histories i)
  | None => false
  end.
End Vocabulary.

(** The events of one field, in the order of the response. *)
Definition is_change (field : string) (it : item) : bool :=
  bool_decide (i_field it = field) && bool_decide (i_fieldtype it = "jira").

Definition field_events (field : string) (i : issue) : list transition :=
  flat_map (fun h => map (change h) (filter (fun it => is_change field it = true) (h_items h)))
           (issue_histories i).

(** The timeline as section 4.1 of the specification words it: the synthetic
    entry is prepended to the filtered events and the whole is reversed. *)
Definition spec_timeline (synthetic : transition) (filtered : list transition)
    : list transition :=
  rev (synthetic :: filtered).

(** Sum of the durations of one issue's allocation. *)
Definition allocated (scores : scores_t) : Z :=
  fold_right Z.add 0 (values scores).

(** [per_leads.get(lead, {}).get(issue_id)] *)
Definition lead_entry (per_leads : dict (option string) (dict string Z))
    (lead : option string) (issue_id : string) : option Z :=
  match dict_get lead per_leads with
  | Some issues => dict_get issue_id issues
  | None => None
  end.

Definition all_nonneg (per_issue : workload_t) : Prop :=
  Forall (fun entry => Forall (fun kv => 0 <= snd kv) (snd entry)) per_issue.

(** The only exception that escapes is the one [strptime] raises. *)
Definition only_value_error {A : Type} (r : result A) : Prop :=
  match r with
  | Ok _ => True
  | Err e => e = ValueError
  end.

Section Reads.
Variable strptime : string -> option Z.

(** The window of exit index [i] has a bound that is not a timestamp. *)
Definition boundary_malformed (sts : list transition) (i : Z) : Prop :=
  (exists b, py_index sts (i - 1) = Ok b /\ strptime (t_date b) = None)
  \/ (exists e, py_index sts i = Ok e /\ strptime (t_date e) = None).

(** The window of exit index [i] is bounded by the instants [zs] and [ze]. *)
Definition window_bounds (sts : list transition) (i : Z) (zs ze : Z) : Prop :=
  exists b e,
    py_index sts (i - 1) = Ok b /\ strptime (t_date b) = Some zs
    /\ py_index sts i = Ok e /\ strptime (t_date e) = Some ze.

(** The cursor gets past the first [k] assignee transitions: all of them are
    dated before the later bound of one and the same window among [idxs].
    (Within a window the loop moves on from a transition exactly when its
    date is before the current start or before the end.) *)
Definition prefix_within (f : fields) (idxs : list Z) (k : nat) : Prop :=
  exists i zs ze,
    In i idxs /\ window_bounds (statuses f) i zs ze
    /\ Forall (fun t => exists z, strptime (t_date t) = Some z /\ z < Z.max zs ze)
              (take k (assignees f)).

(** A malformed timestamp at a place the sweep reads: a bound of a
    target-status window, or an assignee transition that the cursor
    reaches. *)
Definition malformed_read (f : fields) (target : option string) : Prop :=
  (exists i, In i (target_status_idx (statuses f) target)
             /\ boundary_malformed (statuses f) i)
  \/ (exists k a,
        nth_error (assignees f) k = Some a /\ strptime (t_date a) = None
        /\ prefix_within f (target_status_idx (statuses f) target) k).

(** The window of exit index [i] is read without failure and is not
    reversed. *)
Definition window_ok (sts : list transition) (i : Z) : Prop :=
  exists b e zs ze,
    py_index sts (i - 1) = Ok b /\ strptime (t_date b) = Some zs
    /\ py_index sts i = Ok e /\ strptime (t_date e) = Some ze
    /\ zs <= ze.
End Reads.

(** ** The rest of report.py, and info.py *)

(** A [for] loop whose body may raise. *)
Fixpoint fold_result {A B : Type} (body : A -> B -> result A) (l : list B)
    (a : A) : result A :=
  match l with
  | [] => Ok a
  | b :: l' => let* a' := body a b in fold_result body l' a'
  end.

(** *** map_issues *)

(** What [map_issues] reads of an issue of the response. *)
Record raw_issue : Type := RawIssue {
  raw_id : string;
  raw_key : string;
  raw_summary : string;               (* issue["fields"]["summary"] *)
  raw_timeestimate : option Z         (* issue["fields"]["timeestimate"] *)
}.

Record issue_info : Type := IssueInfo {
  info_key : string;
  info_title : string;
  info_timeestimate : option Z
}.

Definition map_issues (response : list raw_issue) : dict string issue_info :=
  fold_left
    (fun issue_map i =>
       dict_setitem (raw_id i)
         (match dict_get (raw_id i) issue_map with
          | None => IssueInfo (raw_key i) (raw_summary i) (raw_timeestimate i)
          | Some first => first
          end) issue_map)
    response [].

(** *** map_assignees *)

(** What [map_assignees] reads of a history record and of its items. *)
Record named_item : Type := NamedItem {
  n_field : string;
  n_fieldtype : string;
  n_to : option string;
  n_toString : string
}.

Record named_history : Type := NamedHistory {
  nh_created : string;
  nh_items : list named_item
}.

Record assignee_info : Type := AssigneeInfo {
  a_name : string;
  a_created : string
}.

Section Maps.
Variable strptime : string -> option Z.

(** The body of [for item in history["items"]]. *)
Definition assignee_step (h : named_history)
    (assignee_map : dict string assignee_info) (it : named_item)
    : result (dict string assignee_info) :=
  if bool_decide (n_field it = "assignee") && bool_decide (n_fieldtype it = "jira")
  then
    match n_to it with
    | Some to =>
        let fresh := AssigneeInfo (n_toString it) (nh_created h) in
        match dict_get to assignee_map with
        | None => Ok (dict_setitem to fresh assignee_map)
        | Some known =>
            let* new_t := parse_date strptime (nh_created h) in
            let* known_t := parse_date strptime (a_created known) in
            Ok (dict_setitem to (if known_t <? new_t then fresh else known)
                             assignee_map)
        end
    | None => Ok assignee_map
    end
  else Ok assignee_map.

(** [response] holds, issue by issue, [issue["changelog"]["histories"]]. *)
Definition map_assignees (response : list (list named_history))
    : result (dict string assignee_info) :=
  fold_result
    (fun assignee_map histories =>
       fold_result
         (fun assignee_map h =>
            fold_result (assignee_step h) (nh_items h) assignee_map)
         histories assignee_map)
    response [].
End Maps.

(** *** info.analyze_issues *)

(** [Counter(iterable)]: keys in order of first occurrence. *)
Definition counter_add {K : Type} `{EqDecision K} (c : dict K nat) (k : K)
    : dict K nat :=
  dict_setitem k (S (match dict_get k c with Some n => n | None => 0%nat end)) c.

Definition Counter {K : Type} `{EqDecision K} (l : list K) : dict K nat :=
  fold_left counter_add l [].

(** What [analyze_issues] reads of an issue: the status and the display name
    of the assignee, [None] when [fields.get("assignee")] is missing or null. *)
Record listed_issue : Type := ListedIssue {
  l_status_id : string;
  l_status_name : string;
  l_assignee : option string
}.

Record search_response : Type := SearchResponse {
  r_issues : option (list listed_issue);   (* response.get("issues", []) *)
  r_isLast : option bool                   (* response.get("isLast", True) *)
}.

Record analysis : Type := Analysis {
  total_issues : nat;
  is_last_page : bool;
  status_counts : dict (string * string) nat;
  assignee_counts : dict string nat
}.

Definition analyze_issues (response : search_response) : analysis :=
  let issues := match r_issues response with Some l => l | None => [] end in
  let statuses := map (fun i => (l_status_id i, l_status_name i)) issues in
  let assignees :=
    map (fun i => match l_assignee i with
                  | Some display_name => display_name
                  | None => "Unassigned"
                  end) issues in
  Analysis (length issues)
           (match r_isLast response with Some b => b | None => true end)
           (Counter statuses) (Counter assignees).

(** ** Vocabulary of the further properties *)

(** [per_issue.get(id, {})] *)
Definition scores_of (id : string) (per_issue : workload_t) : scores_t :=
  match dict_get id per_issue with
  | Some scores => scores
  | None => []
  end.

(** Two runs agree on the issue [id]. *)
Definition agree_on (id : string) {A : Type}
    (r1 r2 : result (A * workload_t)) : Prop :=
  match r1, r2 with
  | Ok (x1, q1), Ok (x2, q2) => x1 = x2 /\ dict_get id q1 = dict_get id q2
  | Err e1, Err e2 => e1 = e2
  | _, _ => False
  end.

(** Every allocation of [per_issue] is non-empty and credits only assignees
    that satisfy [from_of] for its issue. *)
Definition well_shaped (from_of : string -> option string -> Prop)
    (per_issue : workload_t) : Prop :=
  forall id scores, dict_get id per_issue = Some scores ->
    scores <> []
    /\ forall a v, In (a, v) scores -> from_of id a.

(** The state the sweep of issue [id] keeps: distinct issue ids, and for
    [id] a non-empty allocation over assignees that satisfy [P]. *)
Definition sweep_inv (id : string) (P : option string -> Prop)
    (p : workload_t) : Prop :=
  NoDup (keys p)
  /\ match dict_get id p with
     | Some sc => sc <> [] /\ forall a v, In (a, v) sc -> P a
     | None => True
     end.

(** The items [build_changelog] looks at. *)
Definition relevant (it : item) : bool :=
  is_change "status" it || is_change "assignee" it.

(** The issue without the items of other fields or field types. *)
Definition prune (i : issue) : issue :=
  Issue (issue_id i) (issue_created i) (issue_status_id i) (issue_assignee i)
    (map (fun h => History (h_created h)
                     (filter (fun it => relevant it = true) (h_items h)))
         (issue_histories i)).

Definition to_info (i : raw_issue) : issue_info :=
  IssueInfo (raw_key i) (raw_summary i) (raw_timeestimate i).

(** The test of the loop of [find_at_time] on two instants. *)
Definition not_after (inclusive : bool) (zu zq : Z) : bool :=
  (zu - zq <? 0) || (inclusive && (zu - zq =? 0)).

(** The sum of the counts of a [Counter]. *)
Definition counted {K : Type} (c : dict K nat) : nat :=
  fold_right Nat.add 0%nat (values c).

(** What [setdefault(assignee, 0)] followed by [+= delta] does to the
    allocation of one issue. *)
Definition bump (assignee : option string) (delta : Z) (scores : scores_t)
    : scores_t :=
  let scores := dict_setdefault assignee 0 scores in
  dict_setitem assignee
    (match dict_get assignee scores with Some v => v | None => 0 end + delta)
    scores.


(** The assignment that [map_assignees] reads in one item, if any: the new
    assignee and what would be stored for it. *)
Definition item_events (h : named_history) (it : named_item)
    : list (string * assignee_info) :=
  if bool_decide (n_field it = "assignee") && bool_decide (n_fieldtype it = "jira")
  then match n_to it with
       | Some to => [(to, AssigneeInfo (n_toString it) (nh_created h))]
       | None => []
       end
  else [].

(** The assignments of a response, in the order of the loops. *)
Definition assignment_events (response : list (list named_history))
    : list (string * assignee_info) :=
  flat_map (fun histories =>
              flat_map (fun h => flat_map (item_events h) (nh_items h)) histories)
           response.

Section Events.
Variable strptime : string -> option Z.

(** What [map_assignees] does with one assignment. *)
Definition event_step (m : dict string assignee_info)
    (e : string * assignee_info) : result (dict string assignee_info) :=
  match dict_get (fst e) m with
  | None => Ok (dict_setitem (fst e) (snd e) m)
  | Some known =>
      let* new_t := parse_date strptime (a_created (snd e)) in
      let* known_t := parse_date strptime (a_created known) in
      Ok (dict_setitem (fst e) (if known_t <? new_t then snd e else known) m)
  end.

(** [m] records, for every assignee of [seen], one of its assignments with
    the latest timestamp. *)
Definition latest_of (seen : list (string * assignee_info))
    (m : dict string assignee_info) : Prop :=
  NoDup (keys m)
  /\ (forall to info, dict_get to m = Some info ->
        In (to, info) seen
        /\ forall info' z z',
             In (to, info') seen ->
             strptime (a_created info) = Some z ->
             strptime (a_created info') = Some z' -> z' <= z)
  /\ (forall to info', In (to, info') seen -> is_Some (dict_get to m)).
End Events.

(** The name under which [analyze_issues] counts the assignee of an issue. *)
Definition assignee_label (i : listed_issue) : string :=
  match l_assignee i with
  | Some display_name => display_name
  | None => "Unassigned"
  end.

(** ** Further inputs *)

Module Sample.
(** The issue of Scenario A, reassigned once more after it left TARGET. *)
Definition t3 : string := "2023-01-03T09:00:00.000+0000".
Definition assignees_closed : list transition :=
  [ Transition Scenario.t0 None (Some Scenario.A);
    Transition Scenario.t1h (Some Scenario.A) (Some Scenario.B);
    Transition t3 (Some Scenario.B) (Some Scenario.A) ].

(** An issue without any change record. *)
Definition issue_untouched : issue :=
  Issue "I7" Scenario.t0 Scenario.S0 None [].

(** One person assigned twice, under two display names. *)
Definition histories_named : list (list named_history) :=
  [ [ NamedHistory Scenario.t1
        [ NamedItem "assignee" "jira" (Some Scenario.A) "Ann" ] ];
    [ NamedHistory Scenario.t2
        [ NamedItem "assignee" "jira" (Some Scenario.A) "Ann Lee";
          NamedItem "status" "jira" (Some Scenario.TARGET) "In Progress" ] ] ].

(** A changelog with two issues. *)
Definition changelog_two : changelog_t :=
  [ ("I1", Fields Scenario.statuses_A assignees_closed);
    ("I2", Fields Scenario.statuses_A Scenario.assignees_A) ].

(** Two assignees with the same score. *)
Definition scores_tie : scores_t :=
  [ (Some Scenario.A, Scenario.seconds 5);
    (Some Scenario.B, Scenario.seconds 10);
    (None, Scenario.seconds 10) ].

(** Two people, each assigned once; the timestamps are not instants. *)
Definition histories_single : list (list named_history) :=
  [ [ NamedHistory "not-a-date"
        [ NamedItem "assignee" "jira" (Some Scenario.A) "Ann";
          NamedItem "assignee" "jira" None "" ];
      NamedHistory "neither"
        [ NamedItem "assignee" "jira" (Some Scenario.B) "Bob" ] ] ].

End Sample.

(** * Properties *)

(** ** Dictionaries *)

Section DictFacts.
Context {K V : Type} `{EqDecision K}.
Implicit Types (d : dict K V) (k : K) (v : V).

Lemma dict_get_setitem_eq k v d : dict_get k (dict_setitem k v d) = Some v.
Proof.
  induction d as [|[k' v'] d IH]; simpl.
  - by rewrite decide_True.
  - destruct (decide (k = k')); simpl.
    + by rewrite decide_True.
    + by rewrite decide_False.
Qed.

Lemma dict_get_setitem_ne k k' v d :
  k <> k' -> dict_get k' (dict_setitem k v d) = dict_get k' d.
Proof.
  intros Hne. induction d as [|[k0 v0] d IH]; simpl.
  - by rewrite decide_False.
  - destruct (decide (k = k0)) as [->|]; simpl.
    + by rewrite !decide_False.
    + by rewrite IH.
Qed.

Lemma dict_get_setdefault_ne k k' v d :
  k <> k' -> dict_get k' (dict_setdefault k v d) = dict_get k' d.
Proof.
  intros Hne. unfold dict_setdefault.
  destruct (dict_get k d); [done|]. by apply dict_get_setitem_ne.
Qed.

Lemma dict_get_setdefault_is_Some k v d :
  is_Some (dict_get k (dict_setdefault k v d)).
Proof.
  unfold dict_setdefault. destruct (dict_get k d) eqn:E.
  - rewrite E. eauto.
  - rewrite dict_get_setitem_eq. eauto.
Qed.

Lemma dict_get_In k v d : dict_get k d = Some v -> In (k, v) d.
Proof.
  induction d as [|[k' v'] d IH]; simpl; [done|].
  destruct (decide (k = k')) as [->|]; intros Hg.
  - left. congruence.
  - right. auto.
Qed.

Lemma dict_get_None k d : ~ In k (keys d) -> dict_get k d = None.
Proof.
  induction d as [|[k' v'] d IH]; simpl; [done|].
  intros Hn. rewrite decide_False by (intros ->; apply Hn; by left).
  apply IH. intros Hin. apply Hn. by right.
Qed.

Lemma In_dict_get k v d : NoDup (keys d) -> In (k, v) d -> dict_get k d = Some v.
Proof.
  induction d as [|[k' v'] d IH]; simpl; [done|].
  intros Hnd [Heq|Hin].
  - inversion Heq; subst. by rewrite decide_True.
  - apply NoDup_cons in Hnd as [Hk Hnd].
    rewrite decide_False; [by apply IH|].
    intros ->. apply Hk. apply list_elem_of_In.
    change k' with (fst (k', v)). by apply in_map.
Qed.

Lemma Forall_dict_setitem (P : K * V -> Prop) k v d :
  P (k, v) -> Forall P d -> Forall P (dict_setitem k v d).
Proof.
  intros Hp. induction 1 as [|[k' v'] d Hx Hd IH]; simpl.
  - by constructor.
  - destruct (decide (k = k')); constructor; auto.
Qed.

Lemma Forall_dict_setdefault (P : K * V -> Prop) k v d :
  P (k, v) -> Forall P d -> Forall P (dict_setdefault k v d).
Proof.
  intros Hp Hd. unfold dict_setdefault.
  destruct (dict_get k d); [done|]. by apply Forall_dict_setitem.
Qed.

Lemma Forall_dict_get (P : K * V -> Prop) k v d :
  Forall P d -> dict_get k d = Some v -> P (k, v).
Proof.
  intros Hd Hg. apply dict_get_In in Hg.
  rewrite List.Forall_forall in Hd. by apply Hd.
Qed.
End DictFacts.

(** ** The sweep of [calculate_workload] *)

Section Sweep.
Variable strptime : string -> option Z.

Lemma datetime_compare_times (a b : Z) :
  datetime_compare strptime (DTime a) (DTime b) = Ok (a - b).
Proof. unfold datetime_compare; simpl. f_equal. lia. Qed.

(** One turn of the [while] loop, with the calls unfolded. *)
Lemma sweep_cons a rest idx id start end_ p :
  sweep strptime (a :: rest) idx id start end_ p =
  match strptime (t_date a) with
  | None => Err ValueError
  | Some date =>
      if date <? start then sweep strptime rest (S idx) id start end_ p
      else if date <? end_
      then let* p' := credit id (t_from a) (date - start) (touch id (t_from a) p) in
           sweep strptime rest (S idx) id date end_ p'
      else let* p' := credit id (t_from a) (end_ - start) (touch id (t_from a) p) in
           Ok (idx, p')
  end.
Proof.
  simpl. unfold parse_date. destruct (strptime (t_date a)) as [date|]; simpl; [|done].
  destruct (date <? start); [done|].
  destruct (date <? end_); simpl.
  - by replace (- (start - date)) with (date - start) by lia.
  - by replace (- (start - end_)) with (end_ - start) by lia.
Qed.

(** After [touch], the credited entry exists: [+=] cannot raise. *)
Lemma credit_touch id a delta p :
  exists scores v,
    dict_get id (touch id a p) = Some scores /\
    dict_get a scores = Some v /\
    credit id a delta (touch id a p)
    = Ok (dict_setitem id (dict_setitem a (v + delta) scores) (touch id a p)).
Proof.
  destruct (dict_get_setdefault_is_Some id ([] : scores_t) p) as [sc Hsc].
  destruct (dict_get_setdefault_is_Some a 0 sc) as [v Hv].
  assert (Ht : touch id a p
               = dict_setitem id (dict_setdefault a 0 sc) (dict_setdefault id [] p)).
  { unfold touch. by rewrite Hsc. }
  exists (dict_setdefault a 0 sc), v. rewrite Ht.
  split; [apply dict_get_setitem_eq|]. split; [done|].
  unfold credit, dict_getitem. rewrite dict_get_setitem_eq. simpl.
  by rewrite Hv.
Qed.

Lemma touch_get_ne id id' a p :
  id <> id' -> dict_get id' (touch id a p) = dict_get id' p.
Proof.
  intros Hne. unfold touch.
  destruct (dict_get id (dict_setdefault id [] p)).
  - rewrite dict_get_setitem_ne by done. by apply dict_get_setdefault_ne.
  - by apply dict_get_setdefault_ne.
Qed.

Lemma credit_get_ne id id' a delta p p' :
  id <> id' -> credit id a delta p = Ok p' -> dict_get id' p' = dict_get id' p.
Proof.
  intros Hne. unfold credit, dict_getitem.
  destruct (dict_get id p) as [sc|]; simpl; [|done].
  destruct (dict_get a sc) as [v|]; simpl; [|done].
  intros [= <-]. by apply dict_get_setitem_ne.
Qed.

(** The sweep of an issue writes under that issue's key only. *)
Lemma sweep_get_ne id id' rest : forall idx start end_ p idx' p',
  id <> id' ->
  sweep strptime rest idx id start end_ p = Ok (idx', p') ->
  dict_get id' p' = dict_get id' p.
Proof.
  induction rest as [|a rest IH]; intros idx start end_ p idx' p' Hne.
  - simpl. by intros [= _ <-].
  - rewrite sweep_cons.
    destruct (strptime (t_date a)) as [date|]; [|done].
    destruct (date <? start); [by apply IH|].
    destruct (date <? end_).
    + destruct (credit id (t_from a) (date - start) _) as [p1|] eqn:Hc; simpl; [|done].
      intros Hs. rewrite (IH _ _ _ _ _ _ Hne Hs).
      rewrite (credit_get_ne _ _ _ _ _ _ Hne Hc). by apply touch_get_ne.
    + destruct (credit id (t_from a) (end_ - start) _) as [p1|] eqn:Hc; simpl; [|done].
      intros [= _ <-].
      rewrite (credit_get_ne _ _ _ _ _ _ Hne Hc). by apply touch_get_ne.
Qed.

Lemma windows_get_ne id id' f idxs : forall idx p idx' p',
  id <> id' ->
  windows strptime idxs id f idx p = Ok (idx', p') ->
  dict_get id' p' = dict_get id' p.
Proof.
  induction idxs as [|i idxs IH]; intros idx p idx' p' Hne.
  - simpl. by intros [= _ <-].
  - simpl.
    destruct (py_index (statuses f) (i - 1)) as [b|]; simpl; [|done].
    destruct (parse_date strptime (t_date b)) as [start|]; simpl; [|done].
    destruct (py_index (statuses f) i) as [e|]; simpl; [|done].
    destruct (parse_date strptime (t_date e)) as [end_|]; simpl; [|done].
    destruct (sweep strptime _ idx id start end_ p) as [[idx1 p1]|] eqn:Hs;
      simpl; [|done].
    intros Hw. rewrite (IH _ _ _ _ Hne Hw). by eapply sweep_get_ne.
Qed.

Lemma workload_of_issue_get_ne target id id' f p p' :
  id <> id' ->
  workload_of_issue strptime target id f p = Ok p' ->
  dict_get id' p' = dict_get id' p.
Proof.
  intros Hne. unfold workload_of_issue.
  destruct (windows strptime _ id f 0%nat p) as [[idx1 p1]|] eqn:Hw; simpl; [|done].
  intros [= <-]. by eapply windows_get_ne.
Qed.

(** *** Exit indices *)

Lemma target_idx_from_none target sts : forall n,
  Forall (fun t => t_from t <> target) sts ->
  map fst (filter (fun il : Z * transition => bool_decide (t_from (snd il) = target))
                  (enumerate_from n sts)) = [].
Proof.
  induction sts as [|t sts IH]; intros n Hall; [done|].
  apply Forall_cons in Hall as [Ht Hall]. simpl.
  rewrite filter_cons_False; [by apply IH|].
  simpl. rewrite bool_decide_eq_false_2; auto.
Qed.

Lemma target_status_idx_no_exit target sts :
  Forall (fun t => t_from t <> target) sts -> target_status_idx sts target = [].
Proof. apply target_idx_from_none. Qed.

Lemma workload_of_issue_no_exit target id f p :
  Forall (fun t => t_from t <> target) (statuses f) ->
  workload_of_issue strptime target id f p = Ok p.
Proof.
  intros Hall. unfold workload_of_issue.
  by rewrite target_status_idx_no_exit.
Qed.

Lemma workload_loop_no_entry target id items : forall p r,
  (forall f, In (id, f) items -> Forall (fun t => t_from t <> target) (statuses f)) ->
  workload_loop strptime items target p = Ok r ->
  dict_get id r = dict_get id p.
Proof.
  induction items as [|[id' f] items IH]; intros p r Hall; simpl.
  - by intros [= <-].
  - destruct (workload_of_issue strptime target id' f p) as [p1|] eqn:Hw;
      simpl; [|done].
    intros Hl. rewrite (IH p1 r); [|intros; apply Hall; by right|done].
    destruct (decide (id' = id)) as [->|Hne].
    + rewrite workload_of_issue_no_exit in Hw by (apply Hall; by left).
      congruence.
    + by eapply workload_of_issue_get_ne.
Qed.

Lemma workload_loop_all_no_exit target items : forall p,
  (forall id f, In (id, f) items -> Forall (fun t => t_from t <> target) (statuses f)) ->
  workload_loop strptime items target p = Ok p.
Proof.
  induction items as [|[id f] items IH]; intros p Hall; simpl; [done|].
  rewrite workload_of_issue_no_exit by (eapply Hall; by left). simpl.
  apply IH. intros id' f' Hin. eapply Hall. right. exact Hin.
Qed.
End Sweep.

(** ** Window completeness and Scenario A *)

(** C1 (the code departs from the claim). On Scenario A the only closed
    window is [t1, t2), five hours long, and [calculate_workload] attributes
    two hours to it: the interval from the last assignee transition [t1h] to
    the end of the window is credited to nobody. *)
Theorem window_tail_is_lost :
  target_status_idx Scenario.statuses_A (Some Scenario.TARGET) = [2]
  /\ exists start end_ scores,
       Iso.strptime Scenario.t1 = Some start
       /\ Iso.strptime Scenario.t2 = Some end_
       /\ calculate_workload Iso.strptime Scenario.changelog_A (Some Scenario.TARGET)
          = Ok [("I1", scores)]
       /\ end_ - start = Scenario.seconds 18000
       /\ allocated scores = Scenario.seconds 7200.
Proof.
  split; [reflexivity|].
  eexists _, _, _. repeat split; vm_compute; reflexivity.
Qed.

(** C2 (the code departs from the claim). For Scenario A the result is
    [{A: t1h - t1}] alone: B, who holds the issue from [t1h] to the exit at
    [t2], has no entry. The same holds when the timelines come from
    [build_changelog]. *)
Theorem scenario_A_allocation :
  calculate_workload Iso.strptime Scenario.changelog_A (Some Scenario.TARGET)
  = Ok [("I1", [(Some Scenario.A, Scenario.seconds 7200)])]
  /\ build_changelog [Scenario.issue_A] = Scenario.changelog_A
  /\ (exists x1 x1h x2,
        Iso.strptime Scenario.t1 = Some x1 /\ Iso.strptime Scenario.t1h = Some x1h
        /\ Iso.strptime Scenario.t2 = Some x2
        /\ x1h - x1 = Scenario.seconds 7200 /\ x2 - x1h = Scenario.seconds 10800).
Proof.
  split; [vm_compute; reflexivity|]. split; [vm_compute; reflexivity|].
  eexists _, _, _. repeat split; vm_compute; reflexivity.
Qed.

(** ** Issues that never leave the target status *)

(** C3. An issue whose status timeline has no transition with
    [from = target] is processed without failure and without effect, the
    result of [calculate_workload] has no entry for it, and a changelog made
    of such issues only yields the empty allocation. *)
Theorem no_exit_no_entry (strptime : string -> option Z)
    (changelog : changelog_t) (target : option string) (id : string) :
  (forall f, In (id, f) changelog ->
             Forall (fun t => t_from t <> target) (statuses f)) ->
  (forall f per_issue, In (id, f) changelog ->
     workload_of_issue strptime target id f per_issue = Ok per_issue)
  /\ (forall r, calculate_workload strptime changelog target = Ok r ->
                dict_get id r = None)
  /\ (keys changelog = [id] -> calculate_workload strptime changelog target = Ok []).
Proof.
  intros Hall. split; [|split].
  - intros f p Hin. apply workload_of_issue_no_exit. by apply Hall.
  - intros r Hr. unfold calculate_workload in Hr.
    by rewrite (workload_loop_no_entry strptime target id changelog [] r Hall Hr).
  - intros Hk. unfold calculate_workload. apply workload_loop_all_no_exit.
    intros id' f Hin. apply Hall.
    assert (Hid : In id' (keys changelog)).
    { change id' with (fst (id', f)). by apply in_map. }
    rewrite Hk in Hid. destruct Hid as [->|[]]. exact Hin.
Qed.

(** Scenario B: the status timeline ends in TARGET; the allocation is empty. *)
Lemma no_exit_no_entry_scenario_B :
  (forall f, In ("I1", f) Scenario.changelog_B ->
             Forall (fun t => t_from t <> Some Scenario.TARGET) (statuses f))
  /\ calculate_workload Iso.strptime Scenario.changelog_B (Some Scenario.TARGET) = Ok [].
Proof.
  assert (H : forall f, In ("I1", f) Scenario.changelog_B ->
                Forall (fun t => t_from t <> Some Scenario.TARGET) (statuses f)).
  { intros f [Heq|[]]. inversion Heq; subst; clear Heq.
    repeat constructor; simpl; discriminate. }
  split; [exact H|].
  exact (proj2 (proj2 (no_exit_no_entry Iso.strptime Scenario.changelog_B
                         (Some Scenario.TARGET) "I1" H)) eq_refl).
Defined.

(** ** build_changelog *)

Lemma is_change_exclusive it :
  is_change "status" it = true -> is_change "assignee" it = false.
Proof.
  unfold is_change. intros Hs. apply andb_true_iff in Hs as [Hs _].
  apply bool_decide_eq_true in Hs. rewrite Hs. reflexivity.
Qed.

Lemma collect_item_step h sc ac it :
  collect_item h (sc, ac) it
  = if is_change "status" it then (sc ++ [change h it], ac)
    else if is_change "assignee" it then (sc, ac ++ [change h it])
    else (sc, ac).
Proof. reflexivity. Qed.

Lemma collect_items_events h its : forall sc ac,
  fold_left (collect_item h) its (sc, ac)
  = (sc ++ map (change h) (filter (fun it => is_change "status" it = true) its),
     ac ++ map (change h) (filter (fun it => is_change "assignee" it = true) its)).
Proof.
  induction its as [|it its IH]; intros sc ac; cbn [fold_left].
  - rewrite !filter_nil. cbn [map]. by rewrite !app_nil_r.
  - rewrite collect_item_step.
    destruct (is_change "status" it) eqn:Hs.
    + pose proof (is_change_exclusive it Hs) as Ha.
      rewrite IH.
      rewrite (filter_cons_True (fun it => is_change "status" it = true)) by done.
      rewrite (filter_cons_False (fun it => is_change "assignee" it = true))
        by (rewrite Ha; done).
      cbn [map]. by rewrite <- app_assoc.
    + rewrite (filter_cons_False (fun it => is_change "status" it = true))
        by (rewrite Hs; done).
      destruct (is_change "assignee" it) eqn:Ha; rewrite IH.
      * rewrite (filter_cons_True (fun it => is_change "assignee" it = true)) by done.
        cbn [map]. by rewrite <- app_assoc.
      * by rewrite (filter_cons_False (fun it => is_change "assignee" it = true))
          by (rewrite Ha; done).
Qed.

Lemma collect_histories_events hs : forall sc ac,
  fold_left collect_history hs (sc, ac)
  = (sc ++ flat_map (fun h => map (change h)
                       (filter (fun it => is_change "status" it = true) (h_items h))) hs,
     ac ++ flat_map (fun h => map (change h)
                       (filter (fun it => is_change "assignee" it = true) (h_items h))) hs).
Proof.
  induction hs as [|h hs IH]; intros sc ac; simpl.
  - by rewrite !app_nil_r.
  - unfold collect_history at 2. rewrite collect_items_events, IH.
    by rewrite <- !app_assoc.
Qed.

(** The two accumulators of the loops are the filtered events of each field. *)
Lemma collect_changes_events i :
  collect_changes i = (field_events "status" i, field_events "assignee" i).
Proof. unfold collect_changes. by rewrite collect_histories_events. Qed.

Lemma issue_fields_statuses i :
  statuses (issue_fields i)
  = initial_status i (field_events "status" i) :: rev (field_events "status" i).
Proof.
  unfold issue_fields. rewrite collect_changes_events. simpl.
  by rewrite rev_app_distr.
Qed.

Lemma issue_fields_assignees i :
  assignees (issue_fields i)
  = initial_assignee i (field_events "assignee" i) :: rev (field_events "assignee" i).
Proof.
  unfold issue_fields. rewrite collect_changes_events. simpl.
  by rewrite rev_app_distr.
Qed.

(** C5 (as amended). Each timeline is the reversal of the filtered events
    followed by the synthetic entry, that is the synthetic entry
    [{date: created, from: null, to: oldest-from-or-current}] in front of the
    reversed events; the synthetic entry is appended, not prepended, before
    the reversal. *)
Theorem build_changelog_timelines (i : issue) :
  let st := field_events "status" i in
  let asg := field_events "assignee" i in
  let synthetic_status :=
    Transition (issue_created i) None
      (match last st with Some oldest => t_from oldest
                        | None => Some (issue_status_id i) end) in
  let synthetic_assignee :=
    Transition (issue_created i) None
      (match last asg with Some oldest => t_from oldest
                         | None => issue_assignee i end) in
  issue_fields i = Fields (rev (st ++ [synthetic_status]))
                          (rev (asg ++ [synthetic_assignee]))
  /\ statuses (issue_fields i) = synthetic_status :: rev st
  /\ assignees (issue_fields i) = synthetic_assignee :: rev asg
  /\ dict_get (issue_id i) (build_changelog [i]) = Some (issue_fields i).
Proof.
  cbv zeta. split; [|split; [|split]].
  - unfold issue_fields. by rewrite collect_changes_events.
  - apply issue_fields_statuses.
  - apply issue_fields_assignees.
  - unfold build_changelog. simpl. by rewrite decide_True.
Qed.

(** C5 (counterexample). For the issue of Scenario A the status timeline of
    [build_changelog] differs from the reversal of the synthetic entry
    prepended to the filtered events, which would put the synthetic entry
    last. *)
Lemma build_changelog_not_spec_timeline :
  let st := field_events "status" Scenario.issue_A in
  statuses (issue_fields Scenario.issue_A)
  <> spec_timeline (initial_status Scenario.issue_A st) st.
Proof. vm_compute. discriminate. Qed.

(** ** Indices *)

Lemma py_index_nonneg {A : Type} (l : list A) (i : Z) (a : A) :
  0 <= i -> nth_error l (Z.to_nat i) = Some a -> py_index l i = Ok a.
Proof.
  intros Hi Hn. unfold py_index.
  assert (Hlt : (Z.to_nat i < length l)%nat).
  { apply nth_error_Some. congruence. }
  rewrite (proj2 (Z.ltb_ge i 0)) by lia.
  rewrite (proj2 (Z.leb_le 0 i)) by lia.
  rewrite (proj2 (Z.ltb_lt i _)) by lia.
  simpl. by rewrite Hn.
Qed.

(** Index [-1] is the last element. *)
Lemma py_index_minus_one {A : Type} (l : list A) (x : A) :
  py_index (l ++ [x]) (0 - 1) = Ok x.
Proof.
  unfold py_index. rewrite length_app. simpl length.
  replace (0 - 1 <? 0) with true by reflexivity.
  replace (0 - 1 + Z.of_nat (length l + 1)) with (Z.of_nat (length l)) by lia.
  rewrite (proj2 (Z.leb_le 0 _)) by lia.
  rewrite (proj2 (Z.ltb_lt _ _)) by lia.
  simpl. rewrite Nat2Z.id. rewrite nth_error_app2 by lia.
  by rewrite Nat.sub_diag.
Qed.

Lemma target_idx_from_In target sts : forall n i,
  In i (map fst (filter (fun il : Z * transition =>
                           bool_decide (t_from (snd il) = target))
                        (enumerate_from n sts))) ->
  n <= i /\ exists t, nth_error sts (Z.to_nat (i - n)) = Some t /\ t_from t = target.
Proof.
  induction sts as [|t sts IH]; intros n i; simpl; [done|].
  rewrite filter_cons. destruct (decide _) as [Ht|Ht]; simpl.
  - intros [<-|Hin].
    + split; [lia|]. exists t. rewrite Z.sub_diag. split; [done|].
      by apply bool_decide_unpack in Ht.
    + apply IH in Hin as [Hle (u & Hu & Hf)]. split; [lia|]. exists u.
      replace (Z.to_nat (i - n)) with (S (Z.to_nat (i - (n + 1)))) by lia.
      done.
  - intros Hin. apply IH in Hin as [Hle (u & Hu & Hf)]. split; [lia|]. exists u.
    replace (Z.to_nat (i - n)) with (S (Z.to_nat (i - (n + 1)))) by lia.
    done.
Qed.

(** An exit index is a position of the status timeline whose [from] is the
    target. *)
Lemma target_status_idx_In target sts i :
  In i (target_status_idx sts target) ->
  0 <= i /\ exists t, nth_error sts (Z.to_nat i) = Some t /\ t_from t = target.
Proof.
  intros Hin. apply target_idx_from_In in Hin as [Hle (t & Ht & Hf)].
  split; [done|]. exists t. by rewrite Z.sub_0_r in Ht.
Qed.

(** Both reads of a window succeed: [i - 1] is a position, or wraps. *)
Lemma window_reads {A : Type} (l : list A) (i : Z) (a : A) :
  0 <= i -> nth_error l (Z.to_nat i) = Some a ->
  exists b, py_index l (i - 1) = Ok b.
Proof.
  intros Hi Hn.
  destruct (decide (i = 0)) as [->|Hne].
  - destruct (exists_last (l := l)) as (l' & x & ->).
    { intros ->. by destruct (Z.to_nat 0). }
    exists x. apply py_index_minus_one.
  - assert (Hlt : (Z.to_nat i < length l)%nat).
    { apply nth_error_Some. congruence. }
    destruct (nth_error l (Z.to_nat (i - 1))) as [b|] eqn:Hb.
    + exists b. apply py_index_nonneg; [lia|done].
    + apply nth_error_None in Hb. lia.
Qed.

(** ** A null target status *)

(** C10. With a null target status the synthetic first status entry is an
    exit at index 0; the start of that window is read at index -1, the last
    element of the timeline; and on the issue [Scenario.issue_null] the
    allocation returned holds a negative duration. *)
Theorem null_target_negative_duration :
  (forall i : issue,
     exists rest, target_status_idx (statuses (issue_fields i)) None = 0 :: rest)
  /\ (forall (tl : list transition) (x : transition),
        py_index (tl ++ [x]) (0 - 1) = Ok x)
  /\ (exists scores v,
        calculate_workload Iso.strptime (build_changelog [Scenario.issue_null]) None
        = Ok [("I1", scores)]
        /\ dict_get (Some Scenario.A) scores = Some v
        /\ v < 0).
Proof.
  split; [|split].
  - intros i. rewrite issue_fields_statuses.
    unfold target_status_idx, enumerate. cbn [enumerate_from].
    rewrite filter_cons_True by done. cbn [map fst]. eauto.
  - intros tl x. apply py_index_minus_one.
  - eexists _, _. split; [vm_compute; reflexivity|].
    split; [vm_compute; reflexivity|]. reflexivity.
Qed.

(** ** Exceptions of the sweep *)

Section Errors.
Variable strptime : string -> option Z.

Lemma sweep_errors id rest : forall idx start end_ p,
  only_value_error (sweep strptime rest idx id start end_ p).
Proof.
  induction rest as [|a rest IH]; intros idx start end_ p; [done|].
  rewrite sweep_cons.
  destruct (strptime (t_date a)) as [date|]; [|done].
  destruct (date <? start); [apply IH|].
  destruct (date <? end_).
  - destruct (credit_touch id (t_from a) (date - start) p) as (sc & v & _ & _ & ->).
    simpl. apply IH.
  - destruct (credit_touch id (t_from a) (end_ - start) p) as (sc & v & _ & _ & ->).
    done.
Qed.

(** The first exit index either stops the loop with [ValueError] or hands
    its cursor and allocation to the remaining indices. *)
Lemma windows_cons_cases id f i idxs idx p (t : transition) :
  0 <= i -> nth_error (statuses f) (Z.to_nat i) = Some t ->
  windows strptime (i :: idxs) id f idx p = Err ValueError
  \/ exists b zs ze idx1 p1,
       py_index (statuses f) (i - 1) = Ok b
       /\ strptime (t_date b) = Some zs
       /\ strptime (t_date t) = Some ze
       /\ sweep strptime (drop idx (assignees f)) idx id zs ze p = Ok (idx1, p1)
       /\ windows strptime (i :: idxs) id f idx p
          = windows strptime idxs id f idx1 p1.
Proof.
  intros Hi Ht. cbn [windows].
  destruct (window_reads _ _ _ Hi Ht) as [b Hb]. rewrite Hb.
  rewrite (py_index_nonneg _ _ _ Hi Ht). unfold parse_date. simpl.
  destruct (strptime (t_date b)) as [zs|] eqn:Hzs; simpl; [|by left].
  destruct (strptime (t_date t)) as [ze|] eqn:Hze; simpl; [|by left].
  pose proof (sweep_errors id (drop idx (assignees f)) idx zs ze p) as He.
  destruct (sweep strptime _ idx id zs ze p) as [[idx1 p1]|e] eqn:Hs; simpl.
  - right. exists b, zs, ze, idx1, p1. rewrite Hs. done.
  - left. simpl in He. by rewrite He.
Qed.

Lemma windows_errors id f idxs : forall idx p,
  (forall i, In i idxs ->
     0 <= i /\ exists t, nth_error (statuses f) (Z.to_nat i) = Some t) ->
  only_value_error (windows strptime idxs id f idx p).
Proof.
  induction idxs as [|i idxs IH]; intros idx p Hval; [done|].
  destruct (Hval i (or_introl eq_refl)) as [Hi [t Ht]].
  destruct (windows_cons_cases id f i idxs idx p t Hi Ht)
    as [->|(b & zs & ze & idx1 & p1 & _ & _ & _ & _ & ->)]; [done|].
  apply IH. intros j Hj. apply Hval. by right.
Qed.

Lemma windows_malformed id f idxs : forall idx p i,
  (forall j, In j idxs ->
     0 <= j /\ exists t, nth_error (statuses f) (Z.to_nat j) = Some t) ->
  In i idxs -> boundary_malformed strptime (statuses f) i ->
  windows strptime idxs id f idx p = Err ValueError.
Proof.
  induction idxs as [|i0 idxs IH]; intros idx p i Hval Hin Hbad; [done|].
  destruct (Hval i0 (or_introl eq_refl)) as [Hi [t Ht]].
  destruct (windows_cons_cases id f i0 idxs idx p t Hi Ht)
    as [->|(b & zs & ze & idx1 & p1 & Hb & Hzs & Hze & _ & ->)]; [done|].
  destruct Hin as [<-|Hin].
  - destruct Hbad as [(b' & Hb' & Hn)|(e' & He' & Hn)].
    + congruence.
    + rewrite (py_index_nonneg _ _ _ Hi Ht) in He'. congruence.
  - apply (IH idx1 p1 i); [|done|done]. intros j Hj. apply Hval. by right.
Qed.

Lemma workload_of_issue_errors target id f p :
  only_value_error (workload_of_issue strptime target id f p).
Proof.
  unfold workload_of_issue.
  pose proof (windows_errors id f (target_status_idx (statuses f) target) 0%nat p) as He.
  destruct (windows strptime _ id f 0%nat p) as [[idx1 p1]|e]; simpl; [done|].
  apply He. intros i Hin.
  apply target_status_idx_In in Hin as [Hi (t & Ht & _)]. eauto.
Qed.

(** The loop of one window reaches the transition that follows entries it
    moves on from, and fails there when that transition is malformed. *)
Lemma sweep_reaches id pre : forall a rest idx start end_ p,
  Forall (fun t => exists z, strptime (t_date t) = Some z
                             /\ (z < start \/ z < end_)) pre ->
  strptime (t_date a) = None ->
  sweep strptime (pre ++ a :: rest) idx id start end_ p = Err ValueError.
Proof.
  induction pre as [|u pre IH]; intros a rest idx start end_ p Hall Ha.
  - cbn [app]. by rewrite sweep_cons, Ha.
  - apply Forall_cons in Hall as [(z & Hz & Hlt) Hall].
    cbn [app]. rewrite sweep_cons, Hz.
    destruct (Z.ltb_spec z start) as [H1|H1]; [by apply IH|].
    destruct (Z.ltb_spec z end_) as [H2|H2]; [|lia].
    destruct (credit_touch id (t_from u) (z - start) p) as (sc & v & _ & _ & ->).
    simpl. apply IH; [|done].
    eapply Forall_impl; [exact Hall|].
    intros t (z' & Hz' & Hlt'). exists z'. split; [done|lia].
Qed.

(** The transitions the loop of one window moves on from are instants before
    the later bound of the window. *)
Lemma sweep_passed id rest : forall idx start end_ p idx' p' M,
  start <= M -> end_ <= M ->
  sweep strptime rest idx id start end_ p = Ok (idx', p') ->
  exists n, idx' = (idx + n)%nat /\ (n <= length rest)%nat
    /\ Forall (fun t => exists z, strptime (t_date t) = Some z /\ z < M)
              (take n rest).
Proof.
  induction rest as [|u rest IH]; intros idx start end_ p idx' p' M Hs He.
  - simpl. intros [= <- _]. exists 0%nat. split; [lia|]. split; [done|constructor].
  - rewrite sweep_cons. destruct (strptime (t_date u)) as [z|] eqn:Hz; [|done].
    destruct (Z.ltb_spec z start) as [H1|H1].
    + intros Hsw. destruct (IH _ _ _ _ _ _ M Hs He Hsw) as (n & -> & Hn & Hall).
      exists (S n). split; [lia|]. split; [simpl; lia|].
      simpl. constructor; [|done]. exists z. split; [done|lia].
    + destruct (Z.ltb_spec z end_) as [H2|H2].
      * destruct (credit_touch id (t_from u) (z - start) p) as (sc & v & _ & _ & ->).
        simpl. intros Hsw.
        assert (Hz' : z <= M) by lia.
        destruct (IH _ _ _ _ _ _ M Hz' He Hsw) as (n & -> & Hn & Hall).
        exists (S n). split; [lia|]. split; [simpl; lia|].
        simpl. constructor; [|done]. exists z. split; [done|lia].
      * destruct (credit_touch id (t_from u) (end_ - start) p) as (sc & v & _ & _ & ->).
        simpl. intros [= <- _]. exists 0%nat.
        split; [lia|]. split; [lia|constructor].
Qed.

(** When the loop of one window fails, it is at a malformed transition that
    follows transitions it moved on from. *)
Lemma sweep_failed id rest : forall idx start end_ p e M,
  start <= M -> end_ <= M ->
  sweep strptime rest idx id start end_ p = Err e ->
  exists n a, nth_error rest n = Some a /\ strptime (t_date a) = None
    /\ Forall (fun t => exists z, strptime (t_date t) = Some z /\ z < M)
              (take n rest).
Proof.
  induction rest as [|u rest IH]; intros idx start end_ p e M Hs He; [done|].
  rewrite sweep_cons. destruct (strptime (t_date u)) as [z|] eqn:Hz.
  2: { intros _. exists 0%nat, u. split; [done|]. split; [done|constructor]. }
  destruct (Z.ltb_spec z start) as [H1|H1].
  - intros Hsw. destruct (IH _ _ _ _ _ M Hs He Hsw) as (n & a & Hn & Ha & Hall).
    exists (S n), a. split; [done|]. split; [done|].
    simpl. constructor; [|done]. exists z. split; [done|lia].
  - destruct (Z.ltb_spec z end_) as [H2|H2].
    + destruct (credit_touch id (t_from u) (z - start) p) as (sc & v & _ & _ & ->).
      simpl. intros Hsw.
      assert (Hz' : z <= M) by lia.
      destruct (IH _ _ _ _ _ M Hz' He Hsw) as (n & a & Hn & Ha & Hall).
      exists (S n), a. split; [done|]. split; [done|].
      simpl. constructor; [|done]. exists z. split; [done|lia].
    + destruct (credit_touch id (t_from u) (end_ - start) p) as (sc & v & _ & _ & ->).
      done.
Qed.

Lemma window_bounds_read f i t zs ze b zs0 ze0 :
  0 <= i -> nth_error (statuses f) (Z.to_nat i) = Some t ->
  window_bounds strptime (statuses f) i zs ze ->
  py_index (statuses f) (i - 1) = Ok b -> strptime (t_date b) = Some zs0 ->
  strptime (t_date t) = Some ze0 ->
  zs0 = zs /\ ze0 = ze.
Proof.
  intros Hi Ht (b' & e' & Hb' & Hzs & He' & Hze) Hb Hzs0 Hze0.
  rewrite (py_index_nonneg _ _ _ Hi Ht) in He'. split; congruence.
Qed.

(** The windows of one issue fail when the cursor reaches a malformed
    assignee transition. *)
Lemma windows_reaches id f (k : nat) a i zs ze idxs : forall idx p,
  (forall j, In j idxs ->
     0 <= j /\ exists t, nth_error (statuses f) (Z.to_nat j) = Some t) ->
  In i idxs -> window_bounds strptime (statuses f) i zs ze ->
  nth_error (assignees f) k = Some a -> strptime (t_date a) = None ->
  Forall (fun t => exists z, strptime (t_date t) = Some z /\ z < Z.max zs ze)
         (take k (assignees f)) ->
  (idx <= k)%nat ->
  windows strptime idxs id f idx p = Err ValueError.
Proof.
  induction idxs as [|i0 idxs IH]; intros idx p Hval Hin Hbounds Hk Ha Hall Hle;
    [done|].
  destruct (Hval i0 (or_introl eq_refl)) as [Hi [t Ht]].
  destruct (windows_cons_cases id f i0 idxs idx p t Hi Ht)
    as [->|(b & zs0 & ze0 & idx1 & p1 & Hb & Hzs & Hze & Hs & ->)]; [done|].
  assert (Hka : nth_error (drop idx (assignees f)) (k - idx) = Some a).
  { rewrite nth_error_skipn. by replace (idx + (k - idx))%nat with k by lia. }
  destruct (sweep_passed id _ _ _ _ _ _ _ (Z.max zs0 ze0)
              (Z.le_max_l zs0 ze0) (Z.le_max_r zs0 ze0) Hs)
    as (n & -> & Hn & Hpassed).
  assert (Hnk : (idx + n <= k)%nat).
  { destruct (le_lt_dec (idx + n) k) as [|Hlt]; [done|]. exfalso.
    assert (Hin' : In a (take n (drop idx (assignees f)))).
    { apply (nth_error_In _ (k - idx)). rewrite nth_error_firstn.
      rewrite (proj2 (Nat.ltb_lt (k - idx) n)) by lia. done. }
    rewrite List.Forall_forall in Hpassed.
    destruct (Hpassed a Hin') as (z & Hz & _). congruence. }
  destruct Hin as [<-|Hin].
  - exfalso.
    destruct (window_bounds_read f i0 t zs ze b zs0 ze0 Hi Ht Hbounds Hb Hzs Hze)
      as [-> ->].
    apply nth_error_split in Hka as (pre & rest & Hdrop & Hlen).
    assert (Hpre : pre = take (k - idx) (drop idx (assignees f))).
    { rewrite Hdrop. by rewrite take_app_length'. }
    rewrite Hdrop in Hs. rewrite sweep_reaches in Hs; [done| |done].
    assert (Htk : Forall (fun t => exists z, strptime (t_date t) = Some z
                                             /\ z < Z.max zs ze)
                    (take idx (assignees f) ++ pre)).
    { rewrite Hpre, take_take_drop.
      by replace (idx + (k - idx))%nat with k by lia. }
    apply Forall_app in Htk as [_ Htk].
    eapply Forall_impl; [exact Htk|].
    intros u (z & Hz & Hlt). exists z. split; [done|lia].
  - apply (IH (idx + n)%nat p1); try done. intros j Hj. apply Hval. by right.
Qed.

(** A prefix of the assignee timeline stays within one window when it is
    extended by transitions that are before the later bound of a window. *)
Lemma prefix_within_extend f all idx n i zs ze :
  idx = 0%nat \/ prefix_within strptime f all idx ->
  In i all -> window_bounds strptime (statuses f) i zs ze ->
  Forall (fun t => exists z, strptime (t_date t) = Some z /\ z < Z.max zs ze)
         (take n (drop idx (assignees f))) ->
  prefix_within strptime f all (idx + n).
Proof.
  intros Hcov Hin Hbounds Hpassed. unfold prefix_within.
  rewrite <- take_take_drop.
  destruct Hcov as [->|(i0 & zs0 & ze0 & Hin0 & Hb0 & Hall0)].
  - exists i, zs, ze. split; [done|]. split; [done|]. simpl. done.
  - destruct (Z.le_gt_cases (Z.max zs0 ze0) (Z.max zs ze)) as [Hle|Hgt].
    + exists i, zs, ze. split; [done|]. split; [done|].
      apply Forall_app. split; [|done].
      eapply Forall_impl; [exact Hall0|].
      intros u (z & Hz & Hlt). exists z. split; [done|lia].
    + exists i0, zs0, ze0. split; [done|]. split; [done|].
      apply Forall_app. split; [done|].
      eapply Forall_impl; [exact Hpassed|].
      intros u (z & Hz & Hlt). exists z. split; [done|lia].
Qed.

(** When the windows of one issue fail, a timestamp that the sweep read is
    malformed. *)
Lemma windows_failed id f all idxs : forall idx p e,
  (forall j, In j idxs ->
     0 <= j /\ exists t, nth_error (statuses f) (Z.to_nat j) = Some t) ->
  (forall j, In j idxs -> In j all) ->
  idx = 0%nat \/ prefix_within strptime f all idx ->
  windows strptime idxs id f idx p = Err e ->
  (exists i, In i all /\ boundary_malformed strptime (statuses f) i)
  \/ (exists k a,
        nth_error (assignees f) k = Some a /\ strptime (t_date a) = None
        /\ prefix_within strptime f all k).
Proof.
  induction idxs as [|i idxs IH]; intros idx p e Hval Hsub Hcov; [done|].
  destruct (Hval i (or_introl eq_refl)) as [Hi [t Ht]].
  assert (Hall : In i all) by (apply Hsub; by left).
  cbn [windows].
  destruct (window_reads _ _ _ Hi Ht) as [b Hb]. rewrite Hb.
  rewrite (py_index_nonneg _ _ _ Hi Ht). unfold parse_date. simpl.
  destruct (strptime (t_date b)) as [zs|] eqn:Hzs; simpl.
  2: { intros _. left. exists i. split; [done|]. left. eauto. }
  destruct (strptime (t_date t)) as [ze|] eqn:Hze; simpl.
  2: { intros _. left. exists i. split; [done|]. right. exists t.
       split; [by apply py_index_nonneg|done]. }
  assert (Hbounds : window_bounds strptime (statuses f) i zs ze).
  { exists b, t. split; [done|]. split; [done|].
    split; [by apply py_index_nonneg|done]. }
  destruct (sweep strptime (drop idx (assignees f)) idx id zs ze p)
    as [[idx1 p1]|e1] eqn:Hs; simpl.
  - destruct (sweep_passed id _ _ _ _ _ _ _ (Z.max zs ze)
                (Z.le_max_l zs ze) (Z.le_max_r zs ze) Hs)
      as (n & -> & Hn & Hpassed).
    apply IH; [intros j Hj; apply Hval; by right
              |intros j Hj; apply Hsub; by right|].
    right. by apply (prefix_within_extend f all idx n i zs ze).
  - intros _. right.
    destruct (sweep_failed id _ _ _ _ _ _ (Z.max zs ze)
                (Z.le_max_l zs ze) (Z.le_max_r zs ze) Hs)
      as (n & a & Hn & Ha & Hpassed).
    exists (idx + n)%nat, a. split; [by rewrite <- nth_error_skipn|].
    split; [done|]. by apply (prefix_within_extend f all idx n i zs ze).
Qed.

Lemma workload_of_issue_malformed target id f p :
  malformed_read strptime f target ->
  workload_of_issue strptime target id f p = Err ValueError.
Proof.
  assert (Hval : forall j, In j (target_status_idx (statuses f) target) ->
            0 <= j /\ exists t, nth_error (statuses f) (Z.to_nat j) = Some t).
  { intros j Hin. apply target_status_idx_In in Hin as [Hi (t & Ht & _)]. eauto. }
  intros [(i & Hin & Hbad)|(k & a & Hk & Ha & i & zs & ze & Hin & Hb & Hall)];
    unfold workload_of_issue.
  - by rewrite (windows_malformed id f _ 0%nat p i Hval Hin Hbad).
  - rewrite (windows_reaches id f k a i zs ze _ 0%nat p Hval Hin Hb Hk Ha Hall);
      [done|lia].
Qed.

Lemma workload_of_issue_failed target id f p e :
  workload_of_issue strptime target id f p = Err e ->
  malformed_read strptime f target.
Proof.
  unfold workload_of_issue.
  destruct (windows strptime (target_status_idx (statuses f) target) id f 0%nat p)
    as [[idx1 p1]|e1] eqn:Hw; simpl; [done|]. intros _.
  apply (windows_failed id f (target_status_idx (statuses f) target)
           (target_status_idx (statuses f) target) 0%nat p e1); [|done|by left|done].
  intros j Hin. apply target_status_idx_In in Hin as [Hi (t & Ht & _)]. eauto.
Qed.

Lemma workload_loop_errors target items : forall p,
  only_value_error (workload_loop strptime items target p).
Proof.
  induction items as [|[id f] items IH]; intros p; [done|]. simpl.
  pose proof (workload_of_issue_errors target id f p) as He.
  destruct (workload_of_issue strptime target id f p) as [p1|e]; simpl; [apply IH|done].
Qed.

Lemma workload_loop_malformed target items : forall p id f,
  In (id, f) items -> malformed_read strptime f target ->
  workload_loop strptime items target p = Err ValueError.
Proof.
  induction items as [|[id0 f0] items IH]; intros p id f Hin Hbad; [done|]. simpl.
  pose proof (workload_of_issue_errors target id0 f0 p) as He.
  destruct Hin as [Heq|Hin].
  - inversion Heq; subst. by rewrite workload_of_issue_malformed.
  - destruct (workload_of_issue strptime target id0 f0 p) as [p1|e]; simpl.
    + by apply (IH p1 id f).
    + simpl in He. by rewrite He.
Qed.

Lemma workload_loop_failed target items : forall p e,
  workload_loop strptime items target p = Err e ->
  exists id f, In (id, f) items /\ malformed_read strptime f target.
Proof.
  induction items as [|[id0 f0] items IH]; intros p e; [done|]. simpl.
  destruct (workload_of_issue strptime target id0 f0 p) as [p1|e1] eqn:Hw; simpl.
  - intros Hl. destruct (IH p1 e Hl) as (id & f & Hin & Hbad).
    exists id, f. split; [by right|done].
  - intros _. exists id0, f0. split; [by left|].
    by apply (workload_of_issue_failed target id0 f0 p e1).
Qed.
End Errors.

(** ** Malformed timestamps *)

(** C9 (as amended). [calculate_workload] raises the parse failure
    ([ValueError]) to its caller exactly when a timestamp that the sweep reads
    is malformed: a bound of a target-status window, or an assignee transition
    that the cursor reaches, that is one whose predecessors in the assignee
    timeline are all dated before the later bound of one and the same
    window. *)
Theorem malformed_read_is_signalled (strptime : string -> option Z)
    (changelog : changelog_t) (target : option string) :
  (exists id f, In (id, f) changelog /\ malformed_read strptime f target)
  <-> calculate_workload strptime changelog target = Err ValueError.
Proof.
  unfold calculate_workload. split.
  - intros (id & f & Hin & Hbad).
    by apply (workload_loop_malformed strptime target changelog [] id f).
  - apply workload_loop_failed.
Qed.

Lemma malformed_read_is_signalled_witness :
  (exists id f,
     In (id, f) (build_changelog [Scenario.issue_malformed_assignee])
     /\ malformed_read Iso.strptime f (Some Scenario.TARGET))
  /\ calculate_workload Iso.strptime
       (build_changelog [Scenario.issue_malformed_assignee])
       (Some Scenario.TARGET) = Err ValueError
  /\ (exists id f,
        In (id, f) (build_changelog [Scenario.issue_malformed])
        /\ malformed_read Iso.strptime f (Some Scenario.TARGET))
  /\ calculate_workload Iso.strptime (build_changelog [Scenario.issue_malformed])
                        (Some Scenario.TARGET) = Err ValueError.
Proof.
  assert (Hassignee : exists id f,
            In (id, f) (build_changelog [Scenario.issue_malformed_assignee])
            /\ malformed_read Iso.strptime f (Some Scenario.TARGET)).
  { exists "I1", (issue_fields Scenario.issue_malformed_assignee).
    split; [left; reflexivity|]. right.
    exists 1%nat, (Transition "not-a-date" (Some Scenario.A) (Some Scenario.B)).
    split; [vm_compute; reflexivity|]. split; [vm_compute; reflexivity|].
    exists 2, 1672653600000000, 1672671600000000.
    split; [vm_compute; left; reflexivity|]. split.
    - exists (Transition Scenario.t1 (Some Scenario.S0) (Some Scenario.TARGET)),
             (Transition Scenario.t2 (Some Scenario.TARGET) (Some Scenario.S0)).
      repeat split; vm_compute; reflexivity.
    - change (take 1 (assignees (issue_fields Scenario.issue_malformed_assignee)))
        with [Transition Scenario.t0 None (Some Scenario.A)].
      constructor; [|constructor].
      exists 1672567200000000. split; [vm_compute; reflexivity|]. lia. }
  assert (Hstatus : exists id f,
            In (id, f) (build_changelog [Scenario.issue_malformed])
            /\ malformed_read Iso.strptime f (Some Scenario.TARGET)).
  { exists "I1", (issue_fields Scenario.issue_malformed).
    split; [left; reflexivity|]. left. exists 2. split.
    - vm_compute. left. reflexivity.
    - left. exists (Transition "not-a-date" (Some Scenario.S0) (Some Scenario.TARGET)).
      split; vm_compute; reflexivity. }
  split; [exact Hassignee|].
  split; [exact (proj1 (malformed_read_is_signalled Iso.strptime _ _) Hassignee)|].
  split; [exact Hstatus|].
  exact (proj1 (malformed_read_is_signalled Iso.strptime _ _) Hstatus).
Defined.

(** C9 (counterexample). The response [Scenario.issue_unread] holds a change
    record whose timestamp does not parse; [build_changelog] followed by
    [calculate_workload] returns an allocation all the same, because that
    timestamp bounds no target-status window and is never read. *)
Lemma malformed_unread_is_not_signalled :
  In Scenario.bad_history (issue_histories Scenario.issue_unread)
  /\ Iso.strptime (h_created Scenario.bad_history) = None
  /\ calculate_workload Iso.strptime (build_changelog [Scenario.issue_unread])
                        (Some Scenario.TARGET)
     = Ok [("I1", [(Some Scenario.A, Scenario.seconds 7200)])].
Proof.
  split; [left; reflexivity|]. split; vm_compute; reflexivity.
Qed.

(** ** Ordered timelines *)

Section Ascending.
Variable strptime : string -> option Z.

Lemma ascending_from_nth tl : forall lo k t,
  ascending_from strptime lo tl = true -> nth_error tl k = Some t ->
  exists z, strptime (t_date t) = Some z /\ lo <= z.
Proof.
  induction tl as [|u tl IH]; intros lo k t Hasc Hk.
  - by destruct k.
  - simpl in Hasc. destruct (strptime (t_date u)) as [zu|] eqn:Hu; [|done].
    apply andb_true_iff in Hasc as [Hle Hasc]. apply Z.leb_le in Hle.
    destruct k as [|k]; simpl in Hk.
    + inversion Hk; subst. eauto.
    + destruct (IH zu k t Hasc Hk) as (z & Hz & Hzu). exists z. split; [done|lia].
Qed.

Lemma ascending_from_weaken tl lo lo' :
  lo' <= lo -> ascending_from strptime lo tl = true ->
  ascending_from strptime lo' tl = true.
Proof.
  destruct tl as [|u tl]; [done|]. simpl. intros Hle.
  destruct (strptime (t_date u)) as [zu|]; [|done].
  intros Hasc. apply andb_true_iff in Hasc as [H1 H2]. apply Z.leb_le in H1.
  apply andb_true_iff. split; [apply Z.leb_le; lia|done].
Qed.

Lemma ascending_from_adjacent tl : forall lo k a b,
  ascending_from strptime lo tl = true ->
  nth_error tl k = Some a -> nth_error tl (S k) = Some b ->
  exists za zb, strptime (t_date a) = Some za /\ strptime (t_date b) = Some zb
                /\ za <= zb.
Proof.
  induction tl as [|u tl IH]; intros lo k a b Hasc Ha Hb.
  - by destruct k.
  - simpl in Hasc. destruct (strptime (t_date u)) as [zu|] eqn:Hu; [|done].
    apply andb_true_iff in Hasc as [_ Hasc].
    destruct k as [|k]; simpl in Ha, Hb.
    + inversion Ha; subst.
      destruct (ascending_from_nth tl zu 0%nat b Hasc Hb) as (zb & Hzb & Hle).
      exists zu, zb. done.
    + by apply (IH zu k a b).
Qed.

Lemma ascending_as_from tl :
  ascending strptime tl = true ->
  exists lo, ascending_from strptime lo tl = true.
Proof.
  destruct tl as [|u tl]; [by exists 0|]. simpl.
  destruct (strptime (t_date u)) as [zu|]; [|done].
  intros Hasc. exists zu. by rewrite Z.leb_refl.
Qed.

(** Consecutive entries of an ordered timeline are instants in order. *)
Lemma ascending_adjacent tl k a b :
  ascending strptime tl = true ->
  nth_error tl k = Some a -> nth_error tl (S k) = Some b ->
  exists za zb, strptime (t_date a) = Some za /\ strptime (t_date b) = Some zb
                /\ za <= zb.
Proof.
  intros Hasc. apply ascending_as_from in Hasc as [lo Hasc].
  by apply ascending_from_adjacent with (lo := lo).
Qed.

Lemma ascending_parses tl :
  ascending strptime tl = true ->
  Forall (fun t => is_Some (strptime (t_date t))) tl.
Proof.
  intros Hasc. apply ascending_as_from in Hasc as [lo Hasc].
  apply List.Forall_forall. intros t Hin.
  apply In_nth_error in Hin as [k Hk].
  destruct (ascending_from_nth tl lo k t Hasc Hk) as (z & Hz & _). eauto.
Qed.

(** Under the Timeline invariant and a non-null target, every exit index
    has a window that reads two ordered instants. *)
Lemma timeline_window_ok sts (target : string) i :
  is_timeline strptime sts = true ->
  In i (target_status_idx sts (Some target)) ->
  window_ok strptime sts i.
Proof.
  intros Htl Hin.
  apply target_status_idx_In in Hin as [Hi (e & He & Hfrom)].
  destruct sts as [|t0 sts]; [done|]. simpl in Htl.
  apply andb_true_iff in Htl as [Hnull Hasc]. apply bool_decide_eq_true in Hnull.
  assert (Hpos : 1 <= i).
  { destruct (decide (i = 0)) as [->|]; [|lia].
    simpl in He. inversion He; subst. congruence. }
  destruct (nth_error (t0 :: sts) (Z.to_nat (i - 1))) as [b|] eqn:Hb.
  - assert (He' : nth_error (t0 :: sts) (S (Z.to_nat (i - 1))) = Some e).
    { replace (S (Z.to_nat (i - 1))) with (Z.to_nat i) by lia. done. }
    destruct (ascending_adjacent (t0 :: sts) _ b e Hasc Hb He')
      as (zs & ze & Hzs & Hze & Hle).
    exists b, e, zs, ze.
    split; [apply py_index_nonneg; [lia|done]|].
    split; [done|]. split; [by apply py_index_nonneg|]. done.
  - apply nth_error_None in Hb.
    assert (Z.to_nat i < length (t0 :: sts))%nat by (apply nth_error_Some; congruence).
    lia.
Qed.
End Ascending.

(** ** Non-negative durations *)

Section NonNegative.
Variable strptime : string -> option Z.

Lemma all_nonneg_touch id a p : all_nonneg p -> all_nonneg (touch id a p).
Proof.
  intros Hp. unfold touch.
  assert (Hd : all_nonneg (dict_setdefault id [] p)).
  { apply Forall_dict_setdefault; [constructor|done]. }
  destruct (dict_get id (dict_setdefault id [] p)) as [sc|] eqn:Hsc; [|done].
  apply Forall_dict_setitem; [|done]. simpl.
  apply Forall_dict_setdefault; [simpl; lia|].
  exact (Forall_dict_get _ _ _ _ Hd Hsc).
Qed.

Lemma all_nonneg_credit id a delta p p' :
  0 <= delta -> all_nonneg p -> credit id a delta p = Ok p' -> all_nonneg p'.
Proof.
  intros Hd Hp. unfold credit, dict_getitem.
  destruct (dict_get id p) as [sc|] eqn:Hsc; simpl; [|done].
  destruct (dict_get a sc) as [v|] eqn:Hv; simpl; [|done].
  intros [= <-].
  pose proof (Forall_dict_get _ _ _ _ Hp Hsc) as Hsc'. simpl in Hsc'.
  pose proof (Forall_dict_get _ _ _ _ Hsc' Hv) as Hv'. simpl in Hv'.
  apply Forall_dict_setitem; [|done]. simpl.
  apply Forall_dict_setitem; [simpl; lia|done].
Qed.

(** One window of the sweep: with every remaining assignee date an instant
    and the window not reversed, the loop returns, and what it adds is
    non-negative. *)
Lemma sweep_nonneg id rest : forall idx start end_ p,
  Forall (fun t => is_Some (strptime (t_date t))) rest ->
  start <= end_ -> all_nonneg p ->
  exists idx' p', sweep strptime rest idx id start end_ p = Ok (idx', p')
                  /\ all_nonneg p'.
Proof.
  induction rest as [|a rest IH]; intros idx start end_ p Hparse Hle Hp.
  - exists idx, p. done.
  - apply Forall_cons in Hparse as [[date Hdate] Hparse].
    rewrite sweep_cons, Hdate.
    destruct (Z.ltb_spec date start) as [Hlt|Hge]; [by apply IH|].
    destruct (Z.ltb_spec date end_) as [Hlt'|Hge'].
    + destruct (credit_touch id (t_from a) (date - start) p)
        as (sc & v & _ & _ & Hc).
      rewrite Hc. simpl. apply IH; [done|lia|].
      apply (all_nonneg_credit id (t_from a) (date - start) (touch id (t_from a) p));
        [lia|by apply all_nonneg_touch|done].
    + destruct (credit_touch id (t_from a) (end_ - start) p)
        as (sc & v & _ & _ & Hc).
      rewrite Hc. simpl. eexists _, _. split; [done|].
      apply (all_nonneg_credit id (t_from a) (end_ - start) (touch id (t_from a) p));
        [lia|by apply all_nonneg_touch|done].
Qed.

Lemma windows_nonneg id f idxs : forall idx p,
  (forall i, In i idxs -> window_ok strptime (statuses f) i) ->
  Forall (fun t => is_Some (strptime (t_date t))) (assignees f) ->
  all_nonneg p ->
  exists idx' p', windows strptime idxs id f idx p = Ok (idx', p')
                  /\ all_nonneg p'.
Proof.
  induction idxs as [|i idxs IH]; intros idx p Hok Hparse Hp.
  - exists idx, p. done.
  - destruct (Hok i (or_introl eq_refl))
      as (b & e & zs & ze & Hb & Hzs & He & Hze & Hle).
    cbn [windows]. rewrite Hb, He. unfold parse_date. simpl.
    rewrite Hzs, Hze. simpl.
    destruct (sweep_nonneg id (drop idx (assignees f)) idx zs ze p)
      as (idx1 & p1 & Hs & Hp1); [by apply Forall_drop|done|done|].
    rewrite Hs. simpl. apply IH; [|done|done].
    intros j Hj. apply Hok. by right.
Qed.

Lemma workload_loop_nonneg (target : string) items : forall p,
  (forall id f, In (id, f) items ->
     is_timeline strptime (statuses f) = true
     /\ is_timeline strptime (assignees f) = true) ->
  all_nonneg p ->
  exists r, workload_loop strptime items (Some target) p = Ok r /\ all_nonneg r.
Proof.
  induction items as [|[id f] items IH]; intros p Htl Hp.
  - exists p. done.
  - destruct (Htl id f (or_introl eq_refl)) as [Hst Has].
    cbn [workload_loop]. unfold workload_of_issue.
    destruct (windows_nonneg id f (target_status_idx (statuses f) (Some target))
                0%nat p) as (idx1 & p1 & Hw & Hp1); [| |done|].
    + intros i Hin. by apply timeline_window_ok with (target := target).
    + apply ascending_parses. destruct (assignees f) as [|a0 tl]; [done|].
      simpl in Has. by apply andb_true_iff in Has as [_ Has].
    + rewrite Hw. simpl. apply IH; [|done].
      intros id' f' Hin. apply (Htl id' f'). by right.
Qed.
End NonNegative.

(** C7. When every status and assignee timeline of the changelog satisfies
    the Timeline invariant and the target status is not null,
    [calculate_workload] returns an allocation, and every duration in it is
    non-negative. *)
Theorem durations_are_non_negative (strptime : string -> option Z)
    (changelog : changelog_t) (target : string) :
  (forall id f, In (id, f) changelog ->
     is_timeline strptime (statuses f) = true
     /\ is_timeline strptime (assignees f) = true) ->
  exists r,
    calculate_workload strptime changelog (Some target) = Ok r
    /\ forall id scores a v, In (id, scores) r -> In (a, v) scores -> 0 <= v.
Proof.
  intros Htl.
  destruct (workload_loop_nonneg strptime target changelog [] Htl)
    as (r & Hr & Hnn); [constructor|].
  exists r. split; [exact Hr|].
  intros id scores a v Hin Hin'.
  unfold all_nonneg in Hnn. rewrite List.Forall_forall in Hnn.
  specialize (Hnn _ Hin). simpl in Hnn. rewrite List.Forall_forall in Hnn.
  exact (Hnn _ Hin').
Qed.

Lemma durations_are_non_negative_scenario_A :
  (forall id f, In (id, f) Scenario.changelog_A ->
     is_timeline Iso.strptime (statuses f) = true
     /\ is_timeline Iso.strptime (assignees f) = true)
  /\ exists r,
       calculate_workload Iso.strptime Scenario.changelog_A (Some Scenario.TARGET) = Ok r
       /\ forall id scores a v, In (id, scores) r -> In (a, v) scores -> 0 <= v.
Proof.
  assert (H : forall id f, In (id, f) Scenario.changelog_A ->
     is_timeline Iso.strptime (statuses f) = true
     /\ is_timeline Iso.strptime (assignees f) = true).
  { intros id f [Heq|[]]. inversion Heq; subst; clear Heq.
    split; vm_compute; reflexivity. }
  split; [exact H|].
  exact (durations_are_non_negative Iso.strptime Scenario.changelog_A
           Scenario.TARGET H).
Defined.

(** ** group_by_lead *)

Lemma dict_get_setdefault_eq {K V : Type} `{EqDecision K} (k : K) (v : V)
    (d : dict K V) :
  dict_get k (dict_setdefault k v d)
  = Some (match dict_get k d with Some x => x | None => v end).
Proof.
  unfold dict_setdefault. destruct (dict_get k d) eqn:E; [done|].
  apply dict_get_setitem_eq.
Qed.

Lemma max_by_score_In rest : forall best,
  In (max_by_score best rest) (best :: rest).
Proof.
  induction rest as [|[k v] rest IH]; intros best; simpl; [by left|].
  destruct (snd best <? v).
  - right. apply IH.
  - destruct (IH best) as [Heq|Hin]; [by left|right; by right].
Qed.

Lemma max_by_score_ge rest : forall best kv,
  In kv (best :: rest) -> snd kv <= snd (max_by_score best rest).
Proof.
  induction rest as [|[k v] rest IH]; intros best kv; simpl.
  - intros [<-|[]]. lia.
  - destruct (Z.ltb_spec (snd best) v) as [Hlt|Hge].
    + intros [<-|Hin].
      * pose proof (IH (k, v) (k, v) (or_introl eq_refl)) as Hm. simpl in Hm. lia.
      * by apply IH.
    + intros [<-|[<-|Hin]].
      * apply IH. by left.
      * pose proof (IH best best (or_introl eq_refl)) as Hm. simpl. lia.
      * apply IH. by right.
Qed.

(** The lead is an assignee of the allocation with the largest score. *)
Lemma lead_of_spec (scores : scores_t) lead score :
  lead_of scores = Some (lead, score) ->
  In (lead, score) scores /\ forall a v, In (a, v) scores -> v <= score.
Proof.
  destruct scores as [|kv rest]; [done|]. simpl. intros [= Hm]. split.
  - rewrite <- Hm. apply max_by_score_In.
  - intros a v Hin. pose proof (max_by_score_ge rest kv (a, v) Hin) as Hge.
    rewrite Hm in Hge. done.
Qed.

Lemma lead_entry_record_lead lead i s G l i' :
  lead_entry (record_lead lead i s G) l i'
  = if decide (l = lead)
    then (if decide (i' = i) then Some s else lead_entry G l i')
    else lead_entry G l i'.
Proof.
  unfold record_lead, lead_entry.
  rewrite dict_get_setdefault_eq.
  destruct (decide (l = lead)) as [->|Hne].
  - rewrite dict_get_setitem_eq.
    destruct (decide (i' = i)) as [->|Hi].
    + apply dict_get_setitem_eq.
    + rewrite dict_get_setitem_ne by done. by destruct (dict_get lead G).
  - rewrite dict_get_setitem_ne by done. by rewrite dict_get_setdefault_ne.
Qed.

Lemma lead_entry_group_step G i sc l i' :
  lead_entry (group_step G (i, sc)) l i'
  = match lead_of sc with
    | Some (lead, s) =>
        if decide (l = lead)
        then (if decide (i' = i) then Some s else lead_entry G l i')
        else lead_entry G l i'
    | None => lead_entry G l i'
    end.
Proof.
  unfold group_step. destruct (lead_of sc) as [[lead s]|]; [|done].
  apply lead_entry_record_lead.
Qed.

(** Issues that are not in the input get no entry. *)
Lemma group_fold_other (ws : workload_t) l i : forall G,
  ~ In i (keys ws) ->
  lead_entry (fold_left group_step ws G) l i = lead_entry G l i.
Proof.
  induction ws as [|[i0 sc] ws IH]; intros G Hnot; [done|]. cbn [fold_left].
  rewrite IH by (intros Hin; apply Hnot; by right).
  rewrite lead_entry_group_step.
  assert (Hne : i <> i0) by (intros ->; apply Hnot; by left).
  destruct (lead_of sc) as [[lead s]|]; [|done].
  destruct (decide (l = lead)); [|done]. by rewrite decide_False.
Qed.

Lemma group_fold_entry (ws : workload_t) l i sc : forall G,
  NoDup (keys ws) -> In (i, sc) ws ->
  lead_entry (fold_left group_step ws G) l i
  = match lead_of sc with
    | Some (lead, s) => if decide (l = lead) then Some s else lead_entry G l i
    | None => lead_entry G l i
    end.
Proof.
  induction ws as [|[i0 sc0] ws IH]; intros G Hnd Hin; [done|].
  simpl in Hnd. apply NoDup_cons in Hnd as [Hfresh Hnd].
  rewrite list_elem_of_In in Hfresh. cbn [fold_left].
  destruct Hin as [Heq|Hin].
  - inversion Heq; subst; clear Heq.
    rewrite group_fold_other by done. rewrite lead_entry_group_step.
    destruct (lead_of sc) as [[lead s]|]; [|done].
    destruct (decide (l = lead)); [|done]. by rewrite decide_True.
  - rewrite (IH _ Hnd Hin).
    assert (Hne : i <> i0).
    { intros ->. apply Hfresh. change i0 with (fst (i0, sc)). by apply in_map. }
    rewrite lead_entry_group_step.
    destruct (lead_of sc) as [[lead s]|].
    + destruct (decide (l = lead)); [done|].
      destruct (lead_of sc0) as [[lead0 s0]|]; [|done].
      destruct (decide (l = lead0)); [|done]. by rewrite decide_False.
    + destruct (lead_of sc0) as [[lead0 s0]|]; [|done].
      destruct (decide (l = lead0)); [|done]. by rewrite decide_False.
Qed.

(** C8. For a per-issue allocation (a dictionary: issue ids are distinct),
    [group_by_lead] records for every issue with a non-empty allocation
    exactly one entry, under an assignee of that issue whose score is the
    largest and with that score, and records nothing for an issue whose
    allocation is empty or that is not in the input; Scenario C yields
    [{B: {I1: 10}, A: {I2: 20}}]. *)
Theorem group_by_lead_spec (workloads : workload_t) :
  NoDup (keys workloads) ->
  (forall issue_id scores, In (issue_id, scores) workloads ->
     match scores with
     | [] => forall l, lead_entry (group_by_lead workloads) l issue_id = None
     | _ :: _ =>
         exists lead score,
           In (lead, score) scores
           /\ (forall a v, In (a, v) scores -> v <= score)
           /\ forall l, lead_entry (group_by_lead workloads) l issue_id
                        = if decide (l = lead) then Some score else None
     end)
  /\ (forall l issue_id, ~ In issue_id (keys workloads) ->
        lead_entry (group_by_lead workloads) l issue_id = None)
  /\ group_by_lead Scenario.workloads_C
     = [ (Some Scenario.B, [("I1", Scenario.seconds 10)]);
         (Some Scenario.A, [("I2", Scenario.seconds 20)]) ].
Proof.
  intros Hnd. split; [|split].
  - intros i sc Hin. unfold group_by_lead.
    destruct sc as [|kv rest].
    + intros l. by rewrite (group_fold_entry workloads l i [] [] Hnd Hin).
    + destruct (lead_of (kv :: rest)) as [[lead s]|] eqn:Hlead; [|done].
      destruct (lead_of_spec _ _ _ Hlead) as [Hmem Hmax].
      exists lead, s. split; [done|]. split; [done|].
      intros l. rewrite (group_fold_entry workloads l i (kv :: rest) [] Hnd Hin).
      rewrite Hlead. by destruct (decide (l = lead)).
  - intros l i Hnot. unfold group_by_lead. by rewrite group_fold_other.
  - vm_compute. reflexivity.
Qed.

Lemma group_by_lead_spec_scenario_C :
  NoDup (keys Scenario.workloads_C)
  /\ exists lead score,
       In (lead, score) [ (Some Scenario.A, Scenario.seconds 5);
                          (Some Scenario.B, Scenario.seconds 10) ]
       /\ (forall a v, In (a, v) [ (Some Scenario.A, Scenario.seconds 5);
                                   (Some Scenario.B, Scenario.seconds 10) ] ->
                       v <= score)
       /\ forall l, lead_entry (group_by_lead Scenario.workloads_C) l "I1"
                    = if decide (l = lead) then Some score else None.
Proof.
  assert (Hnd : NoDup (keys Scenario.workloads_C)).
  { repeat constructor; simpl; rewrite ?list_elem_of_In; simpl;
      intuition discriminate. }
  split; [exact Hnd|].
  exact (proj1 (group_by_lead_spec Scenario.workloads_C Hnd) "I1" _
           (or_introl eq_refl)).
Defined.

(** ** find_at_time *)

Section Lookup.
Variable strptime : string -> option Z.

Lemma datetime_compare_instants s q zs zq :
  strptime s = Some zs -> as_datetime strptime q = Ok zq ->
  datetime_compare strptime (DStr s) q = Ok (zs - zq).
Proof.
  intros Hs Hq. unfold datetime_compare. simpl. unfold parse_date.
  rewrite Hs. simpl. rewrite Hq. simpl. f_equal. lia.
Qed.

(** The loop walks over every entry that is not after the query. *)
Lemma find_loop_pass q zq pre : forall rest previous,
  as_datetime strptime q = Ok zq ->
  Forall (fun u => exists zu, strptime (t_date u) = Some zu /\ zu <= zq) pre ->
  find_at_time_loop strptime (pre ++ rest) q true previous
  = find_at_time_loop strptime rest q true
      (match last pre with Some x => Some x | None => previous end).
Proof.
  induction pre as [|u pre IH]; intros rest previous Hq Hall; [done|].
  apply Forall_cons in Hall as [(zu & Hzu & Hle) Hall].
  cbn [app find_at_time_loop].
  rewrite (datetime_compare_instants _ _ _ _ Hzu Hq). simpl.
  assert (Hc : (zu - zq <? 0) || (zu - zq =? 0) = true).
  { destruct (Z.ltb_spec (zu - zq) 0); [done|]. simpl. apply Z.eqb_eq. lia. }
  rewrite Hc. rewrite IH by done. rewrite last_cons.
  by destruct (last pre).
Qed.

(** The loop stops at the first entry after the query, or at the end. *)
Lemma find_loop_stop q zq inclusive rest previous :
  as_datetime strptime q = Ok zq ->
  Forall (fun u => exists zu, strptime (t_date u) = Some zu /\ zq < zu) rest ->
  find_at_time_loop strptime rest q inclusive previous = Ok previous.
Proof.
  intros Hq Hall. destruct rest as [|u rest]; [done|].
  apply Forall_cons in Hall as [(zu & Hzu & Hlt) _].
  cbn [find_at_time_loop].
  rewrite (datetime_compare_instants _ _ _ _ Hzu Hq). simpl.
  rewrite (proj2 (Z.ltb_ge (zu - zq) 0)) by lia.
  rewrite (proj2 (Z.eqb_neq (zu - zq) 0)) by lia.
  by rewrite andb_false_r.
Qed.

Lemma ascending_from_lower_bound tl lo :
  ascending_from strptime lo tl = true ->
  Forall (fun u => exists zu, strptime (t_date u) = Some zu /\ lo <= zu) tl.
Proof.
  intros Hasc. apply List.Forall_forall. intros u Hin.
  apply In_nth_error in Hin as [k Hk].
  exact (ascending_from_nth strptime tl lo k u Hasc Hk).
Qed.

(** In an ordered timeline the entries before [t] are not after it, and the
    entries after [t] are not before it. *)
Lemma ascending_from_split pre : forall lo t post z,
  ascending_from strptime lo (pre ++ t :: post) = true ->
  strptime (t_date t) = Some z ->
  Forall (fun u => exists zu, strptime (t_date u) = Some zu /\ zu <= z) pre
  /\ ascending_from strptime z post = true.
Proof.
  induction pre as [|u pre IH]; intros lo t post z Hasc Hz.
  - simpl in Hasc. rewrite Hz in Hasc.
    apply andb_true_iff in Hasc as [_ Hasc]. by split.
  - simpl in Hasc. destruct (strptime (t_date u)) as [zu|] eqn:Hzu; [|done].
    apply andb_true_iff in Hasc as [_ Hasc].
    destruct (IH zu t post z Hasc Hz) as [Hpre Hpost]. split; [|done].
    constructor; [|done]. exists zu. split; [done|].
    assert (Hk : nth_error (pre ++ t :: post) (length pre) = Some t).
    { rewrite nth_error_app2 by lia. by rewrite Nat.sub_diag. }
    destruct (ascending_from_nth strptime _ zu _ t Hasc Hk) as (z' & Hz' & Hle).
    congruence.
Qed.

Lemma find_loop_at_transition tl pre t post z :
  ascending strptime tl = true -> tl = pre ++ t :: post ->
  strptime (t_date t) = Some z ->
  Forall (fun u => strptime (t_date u) <> strptime (t_date t)) post ->
  find_at_time_loop strptime tl (DStr (t_date t)) true None = Ok (Some t).
Proof.
  intros Hasc -> Hz Hlater.
  apply ascending_as_from in Hasc as [lo Hasc].
  destruct (ascending_from_split pre lo t post z Hasc Hz) as [Hpre Hpost].
  assert (Hq : as_datetime strptime (DStr (t_date t)) = Ok z).
  { simpl. unfold parse_date. by rewrite Hz. }
  replace (pre ++ t :: post) with ((pre ++ [t]) ++ post)
    by (by rewrite <- app_assoc).
  rewrite (find_loop_pass _ z) ; [|done|].
  - rewrite last_snoc. apply (find_loop_stop _ z); [done|].
    apply ascending_from_lower_bound in Hpost.
    rewrite List.Forall_forall in Hpost, Hlater. apply List.Forall_forall.
    intros u Hin. destruct (Hpost u Hin) as (zu & Hzu & Hle).
    exists zu. split; [done|]. specialize (Hlater u Hin).
    assert (zu <> z) by congruence. lia.
  - apply Forall_app. split; [done|]. constructor; [|constructor].
    exists z. split; [done|lia].
Qed.
End Lookup.

(** C6 (as amended). In an ordered timeline, looking up the date of a
    transition [t] inclusively returns [t] when no later transition of the
    timeline carries the same timestamp; and a query that precedes every
    transition returns the first one. *)
Theorem lookup_consistency (strptime : string -> option Z)
    (changelog : changelog_t) (issue_id key : string) (f : fields)
    (tl : list transition) :
  dict_get issue_id changelog = Some f ->
  timeline f key = Ok tl ->
  ascending strptime tl = true ->
  (forall pre t post,
     tl = pre ++ t :: post ->
     Forall (fun u => strptime (t_date u) <> strptime (t_date t)) post ->
     find_at_time strptime changelog (DStr (t_date t)) issue_id key true = Ok t)
  /\ (forall q zq first rest inclusive,
        tl = first :: rest ->
        as_datetime strptime q = Ok zq ->
        Forall (fun u => exists zu, strptime (t_date u) = Some zu /\ zq < zu) tl ->
        find_at_time strptime changelog q issue_id key inclusive = Ok first).
Proof.
  intros Hget Hkey Hasc. split.
  - intros pre t post Htl Hlater.
    assert (Hz : exists z, strptime (t_date t) = Some z).
    { pose proof (ascending_parses strptime tl Hasc) as Hp.
      rewrite List.Forall_forall in Hp. destruct (Hp t) as [z Hz]; [|eauto].
      rewrite Htl. apply in_or_app. right. by left. }
    destruct Hz as [z Hz].
    unfold find_at_time, dict_getitem. rewrite Hget. simpl. rewrite Hkey. simpl.
    by rewrite (find_loop_at_transition strptime tl pre t post z).
  - intros q zq first rest inclusive Htl Hq Hall.
    unfold find_at_time, dict_getitem. rewrite Hget. simpl. rewrite Hkey. simpl.
    rewrite (find_loop_stop strptime q zq) by done. simpl.
    rewrite Htl. reflexivity.
Qed.

Lemma lookup_consistency_scenario_A :
  dict_get "I1" Scenario.changelog_A
  = Some (Fields Scenario.statuses_A Scenario.assignees_A)
  /\ timeline (Fields Scenario.statuses_A Scenario.assignees_A) "statuses"
     = Ok Scenario.statuses_A
  /\ ascending Iso.strptime Scenario.statuses_A = true
  /\ find_at_time Iso.strptime Scenario.changelog_A (DStr Scenario.t1) "I1"
       "statuses" true
     = Ok (Transition Scenario.t1 (Some Scenario.S0) (Some Scenario.TARGET)).
Proof.
  assert (H1 : dict_get "I1" Scenario.changelog_A
               = Some (Fields Scenario.statuses_A Scenario.assignees_A))
    by reflexivity.
  assert (H2 : timeline (Fields Scenario.statuses_A Scenario.assignees_A) "statuses"
               = Ok Scenario.statuses_A) by reflexivity.
  assert (H3 : ascending Iso.strptime Scenario.statuses_A = true)
    by (vm_compute; reflexivity).
  split; [exact H1|]. split; [exact H2|]. split; [exact H3|].
  refine (proj1 (lookup_consistency Iso.strptime _ _ _ _ _ H1 H2 H3)
            [Transition Scenario.t0 None (Some Scenario.S0)]
            (Transition Scenario.t1 (Some Scenario.S0) (Some Scenario.TARGET))
            [Transition Scenario.t2 (Some Scenario.TARGET) (Some Scenario.S0)]
            eq_refl _).
  constructor; [vm_compute; discriminate|constructor].
Defined.

(** C6 (counterexample). [Scenario.statuses_tie] is non-empty and
    non-decreasing, its first transition [t] has the date [t0], and the
    inclusive lookup of [t0] returns the second transition, not [t]. *)
Lemma lookup_returns_later_tie :
  is_timeline Iso.strptime Scenario.statuses_tie = true
  /\ In (Transition Scenario.t0 None (Some Scenario.S0)) Scenario.statuses_tie
  /\ find_at_time Iso.strptime Scenario.changelog_tie (DStr Scenario.t0) "I1"
       "statuses" true
     = Ok (Transition Scenario.t0 (Some Scenario.S0) (Some Scenario.TARGET))
  /\ Transition Scenario.t0 (Some Scenario.S0) (Some Scenario.TARGET)
     <> Transition Scenario.t0 None (Some Scenario.S0).
Proof.
  split; [vm_compute; reflexivity|]. split; [left; reflexivity|].
  split; [vm_compute; reflexivity|]. discriminate.
Qed.

(** ** Order of the timelines of build_changelog *)

Section Order.
Variable strptime : string -> option Z.

Lemma ascending_from_const m tl :
  Forall (fun t => strptime (t_date t) = Some m) tl ->
  ascending_from strptime m tl = true.
Proof.
  induction 1 as [|t tl Ht _ IH]; [done|]. simpl.
  rewrite Ht, Z.leb_refl. done.
Qed.

(** Appending entries that start no earlier than [m] to an ordered list whose
    entries end no later than [m]. *)
Lemma ascending_from_app l1 : forall lo m l2,
  ascending_from strptime lo l1 = true ->
  Forall (fun t => exists z, strptime (t_date t) = Some z /\ z <= m) l1 ->
  lo <= m ->
  ascending_from strptime m l2 = true ->
  ascending_from strptime lo (l1 ++ l2) = true.
Proof.
  induction l1 as [|u l1 IH]; intros lo m l2 H1 Hall Hle H2.
  - by apply ascending_from_weaken with (lo := m).
  - apply Forall_cons in Hall as [(zu & Hzu & Hzm) Hall].
    simpl in *. rewrite Hzu in *.
    apply andb_true_iff in H1 as [Hlo H1].
    apply andb_true_iff. split; [done|]. by apply IH with (m := m).
Qed.

Lemma history_events_dates field h :
  Forall (fun t => t_date t = h_created h)
    (map (change h) (filter (fun it => is_change field it = true) (h_items h))).
Proof.
  apply List.Forall_forall. intros t Hin.
  apply in_map_iff in Hin as (it & <- & _). reflexivity.
Qed.

(** The events of newest-first history records, read backwards, are ordered
    and lie between the creation of the issue and the newest record. *)
Lemma events_ascending field c hs : forall hi,
  descending_from strptime hi hs = true ->
  forallb (fun h => match strptime (h_created h) with
                    | Some z => c <=? z
                    | None => false
                    end) hs = true ->
  let events :=
    flat_map (fun h => map (change h)
                (filter (fun it => is_change field it = true) (h_items h))) hs in
  ascending_from strptime c (rev events) = true
  /\ Forall (fun t => exists z, strptime (t_date t) = Some z /\ z <= hi)
            (rev events).
Proof.
  induction hs as [|h hs IH]; intros hi Hdesc Hc; cbv zeta.
  - simpl. split; [done|constructor].
  - simpl in Hdesc, Hc.
    destruct (strptime (h_created h)) as [zh|] eqn:Hzh; [|done].
    apply andb_true_iff in Hdesc as [Hhi Hdesc]. apply Z.leb_le in Hhi.
    apply andb_true_iff in Hc as [Hch Hc]. apply Z.leb_le in Hch.
    destruct (IH zh Hdesc Hc) as [Hasc Hbound]. cbv zeta in Hasc, Hbound.
    cbn [flat_map]. rewrite rev_app_distr.
    assert (Hh : Forall (fun t => strptime (t_date t) = Some zh)
               (rev (map (change h)
                  (filter (fun it => is_change field it = true) (h_items h))))).
    { apply Forall_rev. eapply Forall_impl; [apply history_events_dates|].
      intros t Ht. simpl in Ht. by rewrite Ht. }
    split.
    + apply ascending_from_app with (m := zh); [done|done|done|].
      by apply ascending_from_const.
    + apply Forall_app. split.
      * eapply Forall_impl; [exact Hbound|].
        intros t (z & Hz & Hle). exists z. split; [done|lia].
      * eapply Forall_impl; [exact Hh|].
        intros t Ht. exists zh. split; [done|lia].
Qed.

Lemma field_events_ascending field i c :
  newest_first strptime (issue_histories i) = true ->
  created_first strptime i = true ->
  strptime (issue_created i) = Some c ->
  ascending_from strptime c (rev (field_events field i)) = true.
Proof.
  unfold newest_first, created_first, field_events. intros Hnew Hfirst Hc.
  rewrite Hc in Hfirst.
  destruct (issue_histories i) as [|h hs] eqn:Hhs; [done|].
  destruct (strptime (h_created h)) as [zh|] eqn:Hzh; [|done].
  apply (events_ascending field c (h :: hs) zh); [|done].
  simpl. by rewrite Hzh, Z.leb_refl.
Qed.
End Order.

(** C4 (as amended). For an issue whose change records arrive newest first
    and are not stamped before the creation of the issue, each of the two
    timelines of [build_changelog] is non-empty, is non-decreasing by
    timestamp, and starts with the synthetic entry: [from = null] and the
    creation timestamp as date. *)
Theorem timelines_are_ordered (strptime : string -> option Z) (i : issue) :
  newest_first strptime (issue_histories i) = true ->
  created_first strptime i = true ->
  forall tl,
    tl = statuses (issue_fields i) \/ tl = assignees (issue_fields i) ->
    exists first rest,
      tl = first :: rest
      /\ t_from first = None
      /\ t_date first = issue_created i
      /\ ascending strptime tl = true
      /\ is_timeline strptime tl = true.
Proof.
  intros Hnew Hfirst tl Htl.
  assert (Hc : exists c, strptime (issue_created i) = Some c).
  { unfold created_first in Hfirst.
    destruct (strptime (issue_created i)) as [c|]; [eauto|done]. }
  destruct Hc as [c Hc].
  assert (Hgen : forall field synthetic,
            t_from synthetic = None -> t_date synthetic = issue_created i ->
            ascending strptime (synthetic :: rev (field_events field i)) = true
            /\ is_timeline strptime (synthetic :: rev (field_events field i)) = true).
  { intros field synthetic Hfrom Hdate.
    assert (Hasc : ascending strptime (synthetic :: rev (field_events field i)) = true).
    { cbn [ascending]. rewrite Hdate, Hc.
      by apply field_events_ascending. }
    split; [done|]. cbn [is_timeline]. rewrite Hasc, Hfrom. reflexivity. }
  destruct Htl as [->| ->].
  - rewrite issue_fields_statuses.
    destruct (Hgen "status" (initial_status i (field_events "status" i)))
      as [Hasc Htm]; [done|done|].
    eexists _, _. repeat split; done.
  - rewrite issue_fields_assignees.
    destruct (Hgen "assignee" (initial_assignee i (field_events "assignee" i)))
      as [Hasc Htm]; [done|done|].
    eexists _, _. repeat split; done.
Qed.

Lemma timelines_are_ordered_scenario_A :
  newest_first Iso.strptime (issue_histories Scenario.issue_A) = true
  /\ created_first Iso.strptime Scenario.issue_A = true
  /\ exists first rest,
       statuses (issue_fields Scenario.issue_A) = first :: rest
       /\ t_from first = None
       /\ t_date first = issue_created Scenario.issue_A
       /\ ascending Iso.strptime (statuses (issue_fields Scenario.issue_A)) = true
       /\ is_timeline Iso.strptime (statuses (issue_fields Scenario.issue_A)) = true.
Proof.
  assert (H1 : newest_first Iso.strptime (issue_histories Scenario.issue_A) = true)
    by (vm_compute; reflexivity).
  assert (H2 : created_first Iso.strptime Scenario.issue_A = true)
    by (vm_compute; reflexivity).
  split; [exact H1|]. split; [exact H2|].
  exact (timelines_are_ordered Iso.strptime Scenario.issue_A H1 H2 _
           (or_introl eq_refl)).
Defined.

(** C4 (counterexample). The single change record of [Scenario.issue_late]
    is trivially newest first, yet it is stamped before the creation of the
    issue, and the status timeline built from it is not non-decreasing. *)
Lemma timeline_not_ordered_when_created_late :
  newest_first Iso.strptime (issue_histories Scenario.issue_late) = true
  /\ statuses (issue_fields Scenario.issue_late)
     = [ Transition Scenario.t1 None (Some Scenario.S0);
         Transition Scenario.t0 (Some Scenario.S0) (Some Scenario.TARGET) ]
  /\ ascending Iso.strptime (statuses (issue_fields Scenario.issue_late)) = false.
Proof.
  split; [vm_compute; reflexivity|]. split; vm_compute; reflexivity.
Qed.

(** * Further properties *)

(** ** One credit, seen from the issue *)

(** [setdefault] then [+=] on [per_issue], seen from the issue's allocation:
    it cannot raise, rewrites the allocation of [id] by [bump], and leaves
    every other issue alone. *)
Lemma credit_touch_local id a delta (p : workload_t) :
  exists p',
    credit id a delta (touch id a p) = Ok p'
    /\ dict_get id p' = Some (bump a delta (scores_of id p))
    /\ forall id', id <> id' -> dict_get id' p' = dict_get id' p.
Proof.
  assert (Hsc : dict_get id (dict_setdefault id [] p) = Some (scores_of id p)).
  { rewrite dict_get_setdefault_eq. unfold scores_of. by destruct (dict_get id p). }
  assert (Ht : touch id a p
               = dict_setitem id (dict_setdefault a 0 (scores_of id p))
                   (dict_setdefault id [] p)).
  { unfold touch. by rewrite Hsc. }
  destruct (dict_get_setdefault_is_Some a 0 (scores_of id p)) as [v Hv].
  exists (dict_setitem id (bump a delta (scores_of id p)) (touch id a p)).
  split; [|split].
  - unfold credit, dict_getitem. rewrite Ht at 1. rewrite dict_get_setitem_eq. simpl.
    rewrite Hv. simpl. unfold bump. by rewrite Hv.
  - apply dict_get_setitem_eq.
  - intros id' Hne. rewrite dict_get_setitem_ne by done. by apply touch_get_ne.
Qed.

(** ** Exceptions, cursor and locality of calculate_workload *)

(** X2. Whatever the changelog and the target, [calculate_workload] either
    returns or raises [ValueError]: its index and key accesses never fail,
    also on empty timelines and with a null target. *)
Theorem calculate_workload_raises_only_value_error
    (strptime : string -> option Z) (changelog : changelog_t)
    (target : option string) :
  only_value_error (calculate_workload strptime changelog target).
Proof. apply workload_loop_errors. Qed.

Section Cursor.
Variable strptime : string -> option Z.

Lemma sweep_cursor id rest : forall idx start end_ p,
  match sweep strptime rest idx id start end_ p with
  | Ok (idx', _) => (idx <= idx' <= idx + length rest)%nat
  | Err _ => True
  end.
Proof.
  induction rest as [|a rest IH]; intros idx start end_ p.
  - simpl. lia.
  - rewrite sweep_cons. destruct (strptime (t_date a)) as [date|]; [|done].
    destruct (date <? start).
    + specialize (IH (S idx) start end_ p).
      destruct (sweep strptime rest (S idx) id start end_ p) as [[idx' p']|]; [|done].
      simpl. lia.
    + destruct (date <? end_).
      * destruct (credit_touch_local id (t_from a) (date - start) p)
          as (p1 & -> & _). simpl.
        specialize (IH (S idx) date end_ p1).
        destruct (sweep strptime rest (S idx) id date end_ p1) as [[idx' p']|]; [|done].
        simpl. lia.
      * destruct (credit_touch_local id (t_from a) (end_ - start) p)
          as (p1 & -> & _). simpl. lia.
Qed.

Lemma windows_cursor id f idxs : forall idx p,
  match windows strptime idxs id f idx p with
  | Ok (idx', _) =>
      (idx <= idx' /\ idx' <= Nat.max idx (length (assignees f)))%nat
  | Err _ => True
  end.
Proof.
  induction idxs as [|i idxs IH]; intros idx p.
  - simpl. lia.
  - cbn [windows].
    destruct (py_index (statuses f) (i - 1)) as [b|]; simpl; [|done].
    destruct (parse_date strptime (t_date b)) as [zs|]; simpl; [|done].
    destruct (py_index (statuses f) i) as [e|]; simpl; [|done].
    destruct (parse_date strptime (t_date e)) as [ze|]; simpl; [|done].
    pose proof (sweep_cursor id (drop idx (assignees f)) idx zs ze p) as Hs.
    destruct (sweep strptime (drop idx (assignees f)) idx id zs ze p)
      as [[idx1 p1]|]; simpl; [|done].
    specialize (IH idx1 p1).
    destruct (windows strptime idxs id f idx1 p1) as [[idx' p']|]; [|done].
    rewrite length_drop in Hs. lia.
Qed.
End Cursor.

(** X3. The cursor into the assignee timeline never moves backwards from
    one window to the next and never passes the end of the timeline. *)
Theorem cursor_is_monotone (strptime : string -> option Z) (id : string)
    (f : fields) (idxs : list Z) (idx : nat) (per_issue : workload_t) :
  match windows strptime idxs id f idx per_issue with
  | Ok (idx', _) =>
      (idx <= idx' /\ idx' <= Nat.max idx (length (assignees f)))%nat
  | Err _ => True
  end.
Proof. apply windows_cursor. Qed.

Section Locality.
Variable strptime : string -> option Z.

Lemma scores_of_agree id (p1 p2 : workload_t) :
  dict_get id p1 = dict_get id p2 -> scores_of id p1 = scores_of id p2.
Proof. unfold scores_of. by intros ->. Qed.

Lemma sweep_local id rest : forall idx start end_ p1 p2,
  dict_get id p1 = dict_get id p2 ->
  agree_on id (sweep strptime rest idx id start end_ p1)
              (sweep strptime rest idx id start end_ p2).
Proof.
  induction rest as [|a rest IH]; intros idx start end_ p1 p2 Hp.
  - simpl. done.
  - rewrite !sweep_cons. destruct (strptime (t_date a)) as [date|]; [|done].
    destruct (date <? start); [by apply IH|].
    destruct (date <? end_).
    + destruct (credit_touch_local id (t_from a) (date - start) p1)
        as (q1 & -> & Hq1 & _).
      destruct (credit_touch_local id (t_from a) (date - start) p2)
        as (q2 & -> & Hq2 & _).
      simpl. apply IH. rewrite Hq1, Hq2. by rewrite (scores_of_agree id p1 p2).
    + destruct (credit_touch_local id (t_from a) (end_ - start) p1)
        as (q1 & -> & Hq1 & _).
      destruct (credit_touch_local id (t_from a) (end_ - start) p2)
        as (q2 & -> & Hq2 & _).
      simpl. split; [done|]. rewrite Hq1, Hq2.
      by rewrite (scores_of_agree id p1 p2).
Qed.

Lemma windows_local id f idxs : forall idx p1 p2,
  dict_get id p1 = dict_get id p2 ->
  agree_on id (windows strptime idxs id f idx p1)
              (windows strptime idxs id f idx p2).
Proof.
  induction idxs as [|i idxs IH]; intros idx p1 p2 Hp.
  - simpl. done.
  - cbn [windows].
    destruct (py_index (statuses f) (i - 1)) as [b|]; simpl; [|done].
    destruct (parse_date strptime (t_date b)) as [zs|]; simpl; [|done].
    destruct (py_index (statuses f) i) as [e|]; simpl; [|done].
    destruct (parse_date strptime (t_date e)) as [ze|]; simpl; [|done].
    pose proof (sweep_local id (drop idx (assignees f)) idx zs ze p1 p2 Hp) as Hs.
    destruct (sweep strptime _ idx id zs ze p1) as [[i1 q1]|e1];
      destruct (sweep strptime _ idx id zs ze p2) as [[i2 q2]|e2];
      simpl in Hs; try done.
    destruct Hs as [<- Hq]. simpl. by apply IH.
Qed.

Lemma workload_of_issue_local target id f p1 p2 q1 :
  dict_get id p1 = dict_get id p2 ->
  workload_of_issue strptime target id f p1 = Ok q1 ->
  exists q2, workload_of_issue strptime target id f p2 = Ok q2
             /\ dict_get id q1 = dict_get id q2.
Proof.
  intros Hp. unfold workload_of_issue.
  pose proof (windows_local id f (target_status_idx (statuses f) target)
                0%nat p1 p2 Hp) as Hw.
  destruct (windows strptime _ id f 0%nat p1) as [[i1 r1]|e1];
    destruct (windows strptime _ id f 0%nat p2) as [[i2 r2]|e2];
    simpl in Hw; simpl; try done.
  destruct Hw as [_ Hq]. intros [= <-]. eauto.
Qed.

Lemma workload_loop_frame target id items : forall p r,
  ~ In id (keys items) ->
  workload_loop strptime items target p = Ok r ->
  dict_get id r = dict_get id p.
Proof.
  induction items as [|[id0 f0] items IH]; intros p r Hnot; simpl.
  - by intros [= <-].
  - destruct (workload_of_issue strptime target id0 f0 p) as [p1|] eqn:Hw;
      simpl; [|done].
    intros Hl. rewrite (IH p1 r); [|intros Hin; apply Hnot; by right|done].
    apply (workload_of_issue_get_ne strptime target id0 id f0 p p1); [|done].
    intros ->. apply Hnot. by left.
Qed.

Lemma workload_loop_at target id f items : forall p r,
  NoDup (keys items) -> In (id, f) items ->
  workload_loop strptime items target p = Ok r ->
  exists q, workload_of_issue strptime target id f p = Ok q
            /\ dict_get id r = dict_get id q.
Proof.
  induction items as [|[id0 f0] items IH]; intros p r Hnd Hin; [done|].
  simpl in Hnd. apply NoDup_cons in Hnd as [Hfresh Hnd].
  rewrite list_elem_of_In in Hfresh. simpl.
  destruct (workload_of_issue strptime target id0 f0 p) as [p1|] eqn:Hw;
    simpl; [|done].
  intros Hl. destruct Hin as [Heq|Hin].
  - inversion Heq; subst; clear Heq. exists p1. split; [done|].
    by apply (workload_loop_frame target id items p1 r).
  - assert (Hne : id0 <> id).
    { intros ->. apply Hfresh. change id with (fst (id, f)). by apply in_map. }
    destruct (IH p1 r Hnd Hin Hl) as (q1 & Hq1 & Hr).
    destruct (workload_of_issue_local target id f p1 p q1) as (q & Hq & Hqq);
      [|done|].
    + by apply (workload_of_issue_get_ne strptime target id0 id f0 p p1).
    + exists q. split; [done|]. congruence.
Qed.
End Locality.

(** X4. Issues are independent: in the result for a changelog (a dictionary:
    distinct issue ids), the allocation of an issue is the one that
    [calculate_workload] computes for that issue alone. *)
Theorem issues_are_independent (strptime : string -> option Z)
    (changelog : changelog_t) (target : option string) (id : string)
    (f : fields) (r : workload_t) :
  NoDup (keys changelog) ->
  In (id, f) changelog ->
  calculate_workload strptime changelog target = Ok r ->
  exists r1,
    calculate_workload strptime [(id, f)] target = Ok r1
    /\ dict_get id r = dict_get id r1.
Proof.
  intros Hnd Hin Hr. unfold calculate_workload in *.
  destruct (workload_loop_at strptime target id f changelog [] r Hnd Hin Hr)
    as (q & Hq & Hrq).
  exists q. simpl. rewrite Hq. simpl. done.
Qed.

(** ** Shape of the allocation *)

Section KeysFacts.
Context {K V : Type} `{EqDecision K}.
Implicit Types (d : dict K V) (k : K) (v : V).

Lemma In_keys_setitem k k' v d :
  In k' (keys (dict_setitem k v d)) <-> k' = k \/ In k' (keys d).
Proof.
  unfold keys. induction d as [|[k0 v0] d IH]; simpl.
  - intuition.
  - destruct (decide (k = k0)) as [->|Hne]; simpl; [intuition|].
    rewrite IH. intuition.
Qed.

Lemma NoDup_keys_setitem k v d :
  NoDup (keys d) -> NoDup (keys (dict_setitem k v d)).
Proof.
  unfold keys. induction d as [|[k0 v0] d IH]; simpl; intros Hnd.
  - apply NoDup_cons. split; [apply not_elem_of_nil|constructor].
  - apply NoDup_cons in Hnd as [Hfresh Hnd].
    destruct (decide (k = k0)) as [->|Hne]; simpl.
    + apply NoDup_cons. done.
    + apply NoDup_cons. split; [|by apply IH].
      rewrite list_elem_of_In. intros Hin.
      apply (In_keys_setitem k k0 v d) in Hin as [->|Hin]; [done|].
      apply Hfresh. by apply list_elem_of_In.
Qed.

Lemma NoDup_keys_setdefault k v d :
  NoDup (keys d) -> NoDup (keys (dict_setdefault k v d)).
Proof.
  unfold dict_setdefault. destruct (dict_get k d); [done|].
  apply NoDup_keys_setitem.
Qed.

Lemma In_setitem k k' v v' d :
  In (k', v') (dict_setitem k v d) -> (k' = k /\ v' = v) \/ In (k', v') d.
Proof.
  induction d as [|[k0 v0] d IH]; simpl.
  - intros [[= <- <-]|[]]. by left.
  - destruct (decide (k = k0)) as [->|Hne]; simpl.
    + intros [[= <- <-]|Hin]; [by left|right; by right].
    + intros [Heq|Hin]; [right; by left|].
      destruct (IH Hin) as [?|?]; [by left|right; by right].
Qed.

Lemma dict_setitem_not_nil k v d : dict_setitem k v d <> [].
Proof. destruct d as [|[k0 v0] d]; simpl; [done|]. by destruct (decide (k = k0)). Qed.

Lemma dict_get_keys k v d : dict_get k d = Some v -> In k (keys d).
Proof.
  intros Hg. apply dict_get_In in Hg. unfold keys.
  change k with (fst (k, v)). by apply in_map.
Qed.
End KeysFacts.

Section Shape.
Variable strptime : string -> option Z.

Lemma bump_shape a delta (sc : scores_t) (P : option string -> Prop) :
  P a -> (forall a' v, In (a', v) sc -> P a') ->
  bump a delta sc <> []
  /\ forall a' v, In (a', v) (bump a delta sc) -> P a'.
Proof.
  intros Ha Hsc. split; [apply dict_setitem_not_nil|].
  intros a' v Hin. unfold bump in Hin.
  apply In_setitem in Hin as [[-> _]|Hin]; [done|].
  unfold dict_setdefault in Hin. destruct (dict_get a sc); [by eapply Hsc|].
  apply In_setitem in Hin as [[-> _]|Hin]; [done|by eapply Hsc].
Qed.

Lemma touch_NoDup id a (p : workload_t) :
  NoDup (keys p) -> NoDup (keys (touch id a p)).
Proof.
  intros Hnd. unfold touch.
  destruct (dict_get id (dict_setdefault id [] p)).
  - apply NoDup_keys_setitem. by apply NoDup_keys_setdefault.
  - by apply NoDup_keys_setdefault.
Qed.

Lemma credit_NoDup id a delta (p p' : workload_t) :
  NoDup (keys p) -> credit id a delta p = Ok p' -> NoDup (keys p').
Proof.
  intros Hnd. unfold credit, dict_getitem.
  destruct (dict_get id p) as [sc|]; simpl; [|done].
  destruct (dict_get a sc) as [v|]; simpl; [|done].
  intros [= <-]. by apply NoDup_keys_setitem.
Qed.

Lemma sweep_inv_credit id P a delta p :
  P a -> sweep_inv id P p ->
  exists p', credit id a delta (touch id a p) = Ok p'
             /\ sweep_inv id P p'
             /\ forall id', id <> id' -> dict_get id' p' = dict_get id' p.
Proof.
  intros Ha [Hnd Hsc].
  destruct (credit_touch_local id a delta p) as (p' & Hc & Hget & Hframe).
  exists p'. split; [done|]. split; [|done]. split.
  - apply (credit_NoDup id a delta (touch id a p) p'); [|done].
    by apply touch_NoDup.
  - rewrite Hget. apply bump_shape; [done|].
    unfold scores_of. destruct (dict_get id p) as [sc|]; [apply Hsc|done].
Qed.

Lemma sweep_shape id P rest : forall idx start end_ p idx' p',
  Forall (fun t => P (t_from t)) rest ->
  sweep_inv id P p ->
  sweep strptime rest idx id start end_ p = Ok (idx', p') ->
  sweep_inv id P p'.
Proof.
  induction rest as [|a rest IH]; intros idx start end_ p idx' p' Hall Hinv.
  - simpl. by intros [= _ <-].
  - apply Forall_cons in Hall as [Ha Hall]. rewrite sweep_cons.
    destruct (strptime (t_date a)) as [date|]; [|done].
    destruct (date <? start); [by apply IH|].
    destruct (date <? end_).
    + destruct (sweep_inv_credit id P (t_from a) (date - start) p Ha Hinv)
        as (p1 & -> & Hinv1 & _). simpl. by apply IH.
    + destruct (sweep_inv_credit id P (t_from a) (end_ - start) p Ha Hinv)
        as (p1 & -> & Hinv1 & _). simpl. by intros [= _ <-].
Qed.

Lemma windows_shape id P f idxs : forall idx p idx' p',
  Forall (fun t => P (t_from t)) (assignees f) ->
  sweep_inv id P p ->
  windows strptime idxs id f idx p = Ok (idx', p') ->
  sweep_inv id P p'.
Proof.
  induction idxs as [|i idxs IH]; intros idx p idx' p' Hall Hinv.
  - simpl. by intros [= _ <-].
  - cbn [windows].
    destruct (py_index (statuses f) (i - 1)) as [b|]; simpl; [|done].
    destruct (parse_date strptime (t_date b)) as [zs|]; simpl; [|done].
    destruct (py_index (statuses f) i) as [e|]; simpl; [|done].
    destruct (parse_date strptime (t_date e)) as [ze|]; simpl; [|done].
    destruct (sweep strptime (drop idx (assignees f)) idx id zs ze p)
      as [[idx1 p1]|] eqn:Hs; simpl; [|done].
    apply IH; [done|].
    apply (sweep_shape id P (drop idx (assignees f)) idx zs ze p idx1 p1);
      [by apply Forall_drop|done|done].
Qed.

Lemma workload_loop_shape (CL : changelog_t) target items : forall p r,
  (forall id f, In (id, f) items -> In (id, f) CL) ->
  NoDup (keys p) ->
  well_shaped (fun id a => exists f t, In (id, f) CL /\ In t (assignees f)
                                       /\ t_from t = a) p ->
  (forall id, In id (keys p) -> In id (keys CL)) ->
  workload_loop strptime items target p = Ok r ->
  NoDup (keys r)
  /\ well_shaped (fun id a => exists f t, In (id, f) CL /\ In t (assignees f)
                                          /\ t_from t = a) r
  /\ forall id, In id (keys r) -> In id (keys CL).
Proof.
  induction items as [|[id0 f0] items IH]; intros p r Hsub Hnd Hshape Hkeys.
  - simpl. by intros [= <-].
  - simpl. unfold workload_of_issue at 1.
    destruct (windows strptime (target_status_idx (statuses f0) target) id0 f0
                0%nat p) as [[idx1 p1]|] eqn:Hw; simpl; [|done].
    set (P := fun a => exists f t, In (id0, f) CL /\ In t (assignees f)
                                   /\ t_from t = a).
    assert (Hinv : sweep_inv id0 P p).
    { split; [done|]. destruct (dict_get id0 p) as [sc|] eqn:Hg; [|done].
      by apply (Hshape id0 sc). }
    assert (Hin0 : In (id0, f0) CL) by (apply Hsub; by left).
    pose proof (windows_shape id0 P f0 (target_status_idx (statuses f0) target)
                  0%nat p idx1 p1) as Hinv1.
    destruct Hinv1 as [Hnd1 Hsc1]; [|done|done|].
    { apply List.Forall_forall. intros t Ht. exists f0, t. done. }
    apply IH; [intros; apply Hsub; by right|done| |].
    + intros id sc Hg. destruct (decide (id0 = id)) as [<-|Hne].
      * rewrite Hg in Hsc1. done.
      * rewrite (windows_get_ne strptime id0 id f0 _ _ _ _ _ Hne Hw) in Hg.
        by apply (Hshape id sc).
    + intros id Hin. destruct (decide (id0 = id)) as [<-|Hne].
      * change id0 with (fst (id0, f0)). by apply in_map.
      * apply Hkeys. unfold keys in Hin.
        apply in_map_iff in Hin as ([id' sc] & Heq & Hin). simpl in Heq. subst id'.
        apply (In_dict_get _ _ _ Hnd1) in Hin.
        rewrite (windows_get_ne strptime id0 id f0 _ _ _ _ _ Hne Hw) in Hin.
        by eapply dict_get_keys.
Qed.
End Shape.

(** X5. The result of [calculate_workload] is a dictionary over issues of
    the changelog in which no allocation is empty and every credited assignee
    is the [from] value of an assignee transition of that issue. *)
Theorem allocation_is_well_shaped (strptime : string -> option Z)
    (changelog : changelog_t) (target : option string) :
  match calculate_workload strptime changelog target with
  | Ok r =>
      NoDup (keys r)
      /\ (forall id, In id (keys r) -> In id (keys changelog))
      /\ forall id scores, In (id, scores) r ->
           scores <> []
           /\ forall a v, In (a, v) scores ->
                exists f t, In (id, f) changelog /\ In t (assignees f)
                            /\ t_from t = a
  | Err _ => True
  end.
Proof.
  destruct (calculate_workload strptime changelog target) as [r|] eqn:Hr; [|done].
  unfold calculate_workload in Hr.
  destruct (workload_loop_shape strptime changelog target changelog [] r)
    as (Hnd & Hshape & Hkeys); [done|constructor|done|done|done|].
  split; [done|]. split; [done|].
  intros id scores Hin. apply (Hshape id scores). by apply In_dict_get.
Qed.

(** ** Leads *)

Lemma max_by_score_first rest : forall best,
  (max_by_score best rest = best
   /\ Forall (fun kv => snd kv <= snd best) rest)
  \/ exists pre post,
       rest = pre ++ max_by_score best rest :: post
       /\ snd best < snd (max_by_score best rest)
       /\ Forall (fun kv => snd kv < snd (max_by_score best rest)) pre
       /\ Forall (fun kv => snd kv <= snd (max_by_score best rest)) post.
Proof.
  induction rest as [|[k v] rest IH]; intros best; simpl.
  - left. split; [done|constructor].
  - destruct (Z.ltb_spec (snd best) v) as [Hlt|Hge].
    + right. destruct (IH (k, v)) as [[Heq Hall]|(pre & post & Hrest & Hgt & Hpre & Hpost)].
      * exists [], rest. rewrite Heq. simpl. split; [done|]. split; [done|].
        split; [constructor|done].
      * exists ((k, v) :: pre), post. simpl in Hgt.
        split; [simpl; by rewrite <- Hrest|]. split; [lia|].
        split; [|done]. constructor; [simpl; lia|done].
    + destruct (IH best) as [[Heq Hall]|(pre & post & Hrest & Hgt & Hpre & Hpost)].
      * left. split; [done|]. constructor; [simpl; lia|done].
      * right. exists ((k, v) :: pre), post.
        split; [simpl; by rewrite <- Hrest|]. split; [done|].
        split; [|done]. constructor; [simpl; lia|done].
Qed.

(** X6. Ties: the lead of an allocation is the first assignee, in the order
    of the allocation, whose score is the largest; every assignee before it
    has a strictly smaller score. *)
Theorem lead_is_first_maximum (scores : scores_t) (lead : option string)
    (score : Z) :
  lead_of scores = Some (lead, score) ->
  exists pre post,
    scores = pre ++ (lead, score) :: post
    /\ Forall (fun kv => snd kv < score) pre
    /\ Forall (fun kv => snd kv <= score) post.
Proof.
  destruct scores as [|kv rest]; [done|]. simpl. intros [= Hm].
  destruct (max_by_score_first rest kv)
    as [[Heq Hall]|(pre & post & Hrest & Hgt & Hpre & Hpost)].
  - exists [], rest. rewrite Heq in Hm. subst kv. simpl in *. done.
  - rewrite Hm in *. simpl in *. exists (kv :: pre), post.
    split; [simpl; by rewrite <- Hrest|]. split; [|done].
    constructor; [done|done].
Qed.

Lemma lead_is_first_maximum_tie :
  lead_of Sample.scores_tie = Some (Some Scenario.B, Scenario.seconds 10)
  /\ exists pre post,
       Sample.scores_tie = pre ++ (Some Scenario.B, Scenario.seconds 10) :: post
       /\ Forall (fun kv => snd kv < Scenario.seconds 10) pre
       /\ Forall (fun kv => snd kv <= Scenario.seconds 10) post.
Proof.
  split; [reflexivity|].
  exact (lead_is_first_maximum Sample.scores_tie (Some Scenario.B)
           (Scenario.seconds 10) eq_refl).
Defined.

Lemma group_fold_source (ws : workload_t) l i s : forall G,
  lead_entry (fold_left group_step ws G) l i = Some s ->
  lead_entry G l i = Some s
  \/ exists sc, In (i, sc) ws /\ lead_of sc = Some (l, s).
Proof.
  induction ws as [|[i0 sc0] ws IH]; intros G; cbn [fold_left]; [by left|].
  intros Hs. destruct (IH _ Hs) as [Hstep|(sc & Hin & Hlead)].
  - rewrite lead_entry_group_step in Hstep.
    destruct (lead_of sc0) as [[lead0 s0]|] eqn:Hl0; [|by left].
    destruct (decide (l = lead0)) as [->|]; [|by left].
    destruct (decide (i = i0)) as [->|]; [|by left].
    inversion Hstep; subst. right. exists sc0. split; [by left|done].
  - right. exists sc. split; [by right|done].
Qed.

(** X7. Every entry of the roll-up comes from the input: an issue listed
    under a lead has an allocation in which that lead holds the recorded
    score, and no assignee of the issue has a larger one. *)
Theorem lead_entries_come_from_the_input (workloads : workload_t)
    (lead : option string) (issue_id : string) (score : Z) :
  lead_entry (group_by_lead workloads) lead issue_id = Some score ->
  exists scores,
    In (issue_id, scores) workloads
    /\ In (lead, score) scores
    /\ forall a v, In (a, v) scores -> v <= score.
Proof.
  intros Hs. unfold group_by_lead in Hs.
  destruct (group_fold_source workloads lead issue_id score [] Hs)
    as [Hnil|(sc & Hin & Hlead)]; [done|].
  exists sc. split; [done|]. by apply lead_of_spec.
Qed.

Lemma lead_entries_come_from_the_input_scenario_C :
  lead_entry (group_by_lead Scenario.workloads_C) (Some Scenario.B) "I1"
  = Some (Scenario.seconds 10)
  /\ exists scores,
       In ("I1", scores) Scenario.workloads_C
       /\ In (Some Scenario.B, Scenario.seconds 10) scores
       /\ forall a v, In (a, v) scores -> v <= Scenario.seconds 10.
Proof.
  assert (H : lead_entry (group_by_lead Scenario.workloads_C) (Some Scenario.B) "I1"
              = Some (Scenario.seconds 10)) by (vm_compute; reflexivity).
  split; [exact H|].
  exact (lead_entries_come_from_the_input Scenario.workloads_C (Some Scenario.B)
           "I1" (Scenario.seconds 10) H).
Defined.

(** X8. [calculate_workload] followed by [group_by_lead]: every issue that
    received an allocation is listed under exactly one lead, an assignee of
    that allocation with the largest score. *)
Theorem every_allocated_issue_has_a_lead (strptime : string -> option Z)
    (changelog : changelog_t) (target : option string) :
  match calculate_workload strptime changelog target with
  | Ok r =>
      forall id scores, In (id, scores) r ->
        exists lead score,
          In (lead, score) scores
          /\ (forall a v, In (a, v) scores -> v <= score)
          /\ forall l, lead_entry (group_by_lead r) l id
                       = if decide (l = lead) then Some score else None
  | Err _ => True
  end.
Proof.
  destruct (calculate_workload strptime changelog target) as [r|] eqn:Hr; [|done].
  unfold calculate_workload in Hr.
  destruct (workload_loop_shape strptime changelog target changelog [] r)
    as (Hnd & Hshape & _); [done|constructor|done|done|done|].
  intros id scores Hin.
  destruct (Hshape id scores (In_dict_get _ _ _ Hnd Hin)) as [Hne _].
  destruct (lead_of scores) as [[lead s]|] eqn:Hlead;
    [|by destruct scores].
  destruct (lead_of_spec _ _ _ Hlead) as [Hmem Hmax].
  exists lead, s. split; [done|]. split; [done|].
  intros l. unfold group_by_lead.
  rewrite (group_fold_entry r l id scores [] Hnd Hin), Hlead.
  by destruct (decide (l = lead)).
Qed.

(** ** Issues listed twice, issues without changes *)

Lemma build_changelog_fold id response : forall acc : changelog_t,
  dict_get id (fold_left (fun changelog i =>
                 dict_setitem (issue_id i) (issue_fields i) changelog) response acc)
  = match last (filter (fun i => issue_id i = id) response) with
    | Some i => Some (issue_fields i)
    | None => dict_get id acc
    end.
Proof.
  induction response as [|i0 response IH]; intros acc; [done|].
  cbn [fold_left]. rewrite IH. rewrite filter_cons.
  destruct (decide (issue_id i0 = id)) as [Heq|Hne].
  - rewrite last_cons.
    destruct (last (filter (fun i => issue_id i = id) response)); [done|].
    rewrite <- Heq. apply dict_get_setitem_eq.
  - destruct (last (filter (fun i => issue_id i = id) response)); [done|].
    by apply dict_get_setitem_ne.
Qed.

Lemma fold_setitem_NoDup {A K V : Type} `{EqDecision K} (key : A -> K)
    (val : dict K V -> A -> V) (l : list A) : forall acc : dict K V,
  NoDup (keys acc) ->
  NoDup (keys (fold_left (fun d x => dict_setitem (key x) (val d x) d) l acc)).
Proof.
  induction l as [|x l IH]; intros acc Hnd; [done|].
  cbn [fold_left]. apply IH. by apply NoDup_keys_setitem.
Qed.

(** X9. [build_changelog] keeps one entry per issue id, and for an id that
    the response lists several times the entry is built from the last
    listed issue. *)
Theorem build_changelog_last_wins (response : list issue) (id : string) :
  NoDup (keys (build_changelog response))
  /\ dict_get id (build_changelog response)
     = issue_fields <$> last (filter (fun i => issue_id i = id) response).
Proof.
  split.
  - unfold build_changelog.
    apply (fold_setitem_NoDup issue_id (fun _ i => issue_fields i)). constructor.
  - unfold build_changelog. rewrite build_changelog_fold.
    by destruct (last (filter (fun i => issue_id i = id) response)).
Qed.

Lemma map_issues_fold id response : forall acc : dict string issue_info,
  dict_get id (fold_left (fun issue_map i =>
                 dict_setitem (raw_id i)
                   (match dict_get (raw_id i) issue_map with
                    | None => IssueInfo (raw_key i) (raw_summary i) (raw_timeestimate i)
                    | Some first => first
                    end) issue_map) response acc)
  = match dict_get id acc with
    | Some v => Some v
    | None => to_info <$> head (filter (fun i => raw_id i = id) response)
    end.
Proof.
  induction response as [|i0 response IH]; intros acc.
  - simpl. by destruct (dict_get id acc).
  - cbn [fold_left]. rewrite IH. rewrite filter_cons.
    destruct (decide (raw_id i0 = id)) as [Heq|Hne].
    + rewrite <- Heq. rewrite dict_get_setitem_eq.
      by destruct (dict_get (raw_id i0) acc).
    + by rewrite dict_get_setitem_ne.
Qed.

(** X10. [map_issues] keeps one entry per issue id, and for an id that the
    response lists several times the entry describes the first listed
    issue. *)
Theorem map_issues_first_wins (response : list raw_issue) (id : string) :
  NoDup (keys (map_issues response))
  /\ dict_get id (map_issues response)
     = to_info <$> head (filter (fun i => raw_id i = id) response).
Proof.
  split.
  - unfold map_issues.
    apply (fold_setitem_NoDup raw_id
             (fun issue_map i =>
                match dict_get (raw_id i) issue_map with
                | None => IssueInfo (raw_key i) (raw_summary i) (raw_timeestimate i)
                | Some first => first
                end)). constructor.
  - unfold map_issues. by rewrite map_issues_fold.
Qed.

(** X11. An issue whose history holds no status change and no assignee
    change gets two single-entry timelines whose [to] is its current status
    and its current assignee, and for every non-null target status
    [calculate_workload] parses nothing and allocates nothing to it. *)
Theorem unchanged_issue_has_no_allocation (i : issue) :
  field_events "status" i = [] ->
  field_events "assignee" i = [] ->
  issue_fields i
  = Fields [ Transition (issue_created i) None (Some (issue_status_id i)) ]
           [ Transition (issue_created i) None (issue_assignee i) ]
  /\ forall (strptime : string -> option Z) (target : string),
       calculate_workload strptime (build_changelog [i]) (Some target) = Ok [].
Proof.
  intros Hs Ha.
  assert (Hf : issue_fields i
    = Fields [ Transition (issue_created i) None (Some (issue_status_id i)) ]
             [ Transition (issue_created i) None (issue_assignee i) ]).
  { unfold issue_fields. rewrite collect_changes_events, Hs, Ha. reflexivity. }
  split; [exact Hf|]. intros strptime target.
  unfold build_changelog. cbn [fold_left dict_setitem]. rewrite Hf.
  unfold calculate_workload. cbn [workload_loop].
  rewrite workload_of_issue_no_exit; [done|].
  repeat constructor. done.
Qed.

Lemma unchanged_issue_has_no_allocation_sample :
  field_events "status" Sample.issue_untouched = []
  /\ field_events "assignee" Sample.issue_untouched = []
  /\ issue_fields Sample.issue_untouched
     = Fields [ Transition Scenario.t0 None (Some Scenario.S0) ]
              [ Transition Scenario.t0 None None ]
  /\ forall (strptime : string -> option Z) (target : string),
       calculate_workload strptime (build_changelog [Sample.issue_untouched])
         (Some target) = Ok [].
Proof.
  split; [reflexivity|]. split; [reflexivity|].
  exact (unchanged_issue_has_no_allocation Sample.issue_untouched eq_refl eq_refl).
Defined.

(** X12. Each timeline has one entry more than the field has change items,
    and the synthetic first entry leads into the oldest change: its [to] is
    the [from] of the second entry. *)
Theorem synthetic_entry_joins_the_oldest_change (i : issue) :
  length (statuses (issue_fields i)) = S (length (field_events "status" i))
  /\ length (assignees (issue_fields i)) = S (length (field_events "assignee" i))
  /\ match statuses (issue_fields i) with
     | first :: second :: _ => t_to first = t_from second
     | _ => field_events "status" i = []
     end
  /\ match assignees (issue_fields i) with
     | first :: second :: _ => t_to first = t_from second
     | _ => field_events "assignee" i = []
     end.
Proof.
  assert (Hgen : forall (ev : list transition) (dflt : option string) created,
    match Transition created None
            (match last ev with Some c => t_from c | None => dflt end) :: rev ev with
    | first :: second :: _ => t_to first = t_from second
    | _ => ev = []
    end).
  { intros ev dflt created.
    destruct (rev ev) as [|second rest] eqn:Hrev.
    - apply (f_equal (@rev _)) in Hrev. by rewrite rev_involutive in Hrev.
    - assert (Hev : ev = rev rest ++ [second]).
      { apply (f_equal (@rev _)) in Hrev. by rewrite rev_involutive in Hrev. }
      rewrite Hev, last_snoc. reflexivity. }
  rewrite issue_fields_statuses, issue_fields_assignees.
  split; [simpl; by rewrite length_rev|]. split; [simpl; by rewrite length_rev|].
  split; apply Hgen.
Qed.

Lemma field_events_prune field i :
  field = "status" \/ field = "assignee" ->
  field_events field (prune i) = field_events field i.
Proof.
  intros Hfield. unfold field_events, prune. simpl.
  induction (issue_histories i) as [|h hs IH]; [done|].
  cbn [map flat_map]. rewrite IH. f_equal. simpl. f_equal.
  induction (h_items h) as [|it its IHi]; [done|].
  rewrite (filter_cons (fun it => relevant it = true)).
  destruct (decide (relevant it = true)) as [Hr|Hr].
  - rewrite !filter_cons. destruct (decide (is_change field it = true)); by rewrite IHi.
  - rewrite (filter_cons (fun it => is_change field it = true) it its).
    destruct (decide (is_change field it = true)) as [Hc|Hc]; [|done].
    exfalso. apply Hr. unfold relevant. destruct Hfield as [-> | ->]; rewrite Hc;
      [done|by rewrite orb_true_r].
Qed.

(** X13. [build_changelog] reads only the items of field "status" or
    "assignee" with field type "jira": removing every other item from the
    history records of an issue changes neither of its timelines. *)
Theorem other_items_are_ignored (i : issue) :
  issue_fields (prune i) = issue_fields i.
Proof.
  unfold issue_fields. rewrite !collect_changes_events.
  rewrite !field_events_prune by auto. reflexivity.
Qed.

(** ** find_at_time: both modes, and failures *)

Section LookupModes.
Variable strptime : string -> option Z.

Lemma not_after_true inclusive zu zq :
  zu < zq \/ (inclusive = true /\ zu = zq) -> not_after inclusive zu zq = true.
Proof.
  unfold not_after. intros [Hlt|[-> ->]].
  - by rewrite (proj2 (Z.ltb_lt (zu - zq) 0)) by lia.
  - rewrite Z.sub_diag. reflexivity.
Qed.

Lemma not_after_false inclusive zu zq :
  zq < zu \/ (inclusive = false /\ zu = zq) -> not_after inclusive zu zq = false.
Proof.
  unfold not_after. intros [Hlt|[-> ->]].
  - rewrite (proj2 (Z.ltb_ge (zu - zq) 0)) by lia.
    rewrite (proj2 (Z.eqb_neq (zu - zq) 0)) by lia. by rewrite andb_false_r.
  - rewrite Z.sub_diag. reflexivity.
Qed.

Lemma find_loop_cons q zq inclusive u rest previous zu :
  as_datetime strptime q = Ok zq -> strptime (t_date u) = Some zu ->
  find_at_time_loop strptime (u :: rest) q inclusive previous
  = if not_after inclusive zu zq
    then find_at_time_loop strptime rest q inclusive (Some u)
    else Ok previous.
Proof.
  intros Hq Hzu. cbn [find_at_time_loop].
  by rewrite (datetime_compare_instants _ _ _ _ _ Hzu Hq).
Qed.

Lemma find_loop_prefix q zq inclusive pre : forall rest previous,
  as_datetime strptime q = Ok zq ->
  Forall (fun u => exists zu, strptime (t_date u) = Some zu
                              /\ (zu < zq \/ (inclusive = true /\ zu = zq))) pre ->
  find_at_time_loop strptime (pre ++ rest) q inclusive previous
  = find_at_time_loop strptime rest q inclusive
      (match last pre with Some x => Some x | None => previous end).
Proof.
  induction pre as [|u pre IH]; intros rest previous Hq Hall; [done|].
  apply Forall_cons in Hall as [(zu & Hzu & Hle) Hall].
  cbn [app]. rewrite (find_loop_cons q zq inclusive u _ previous zu Hq Hzu).
  rewrite (not_after_true _ _ _ Hle). rewrite IH by done. rewrite last_cons.
  by destruct (last pre).
Qed.
End LookupModes.

(** X14. The contract of the lookup in both modes: when the timeline splits
    into entries that are before the query (or at it, for an inclusive
    lookup) followed by an entry that is after the query (or at it, for an
    exclusive lookup), [find_at_time] returns the last entry of the first
    part. *)
Theorem lookup_returns_last_entry_not_after (strptime : string -> option Z)
    (changelog : changelog_t) (issue_id key : string) (f : fields)
    (pre post : list transition) (t : transition) (q : date_arg) (zq : Z)
    (inclusive : bool) :
  dict_get issue_id changelog = Some f ->
  timeline f key = Ok (pre ++ post) ->
  as_datetime strptime q = Ok zq ->
  Forall (fun u => exists zu, strptime (t_date u) = Some zu
                              /\ (zu < zq \/ (inclusive = true /\ zu = zq))) pre ->
  match post with
  | [] => True
  | u :: _ => exists zu, strptime (t_date u) = Some zu
                         /\ (zq < zu \/ (inclusive = false /\ zu = zq))
  end ->
  last pre = Some t ->
  find_at_time strptime changelog q issue_id key inclusive = Ok t.
Proof.
  intros Hget Hkey Hq Hpre Hpost Hlast.
  unfold find_at_time, dict_getitem. rewrite Hget. simpl. rewrite Hkey. simpl.
  rewrite (find_loop_prefix strptime q zq inclusive pre post None Hq Hpre), Hlast.
  destruct post as [|u post]; [done|].
  destruct Hpost as (zu & Hzu & Hafter).
  rewrite (find_loop_cons strptime q zq inclusive u post _ zu Hq Hzu).
  by rewrite (not_after_false _ _ _ Hafter).
Qed.

Lemma lookup_returns_last_entry_not_after_exclusive :
  find_at_time Iso.strptime Scenario.changelog_A (DStr Scenario.t1) "I1"
    "statuses" false
  = Ok (Transition Scenario.t0 None (Some Scenario.S0)).
Proof.
  refine (lookup_returns_last_entry_not_after Iso.strptime Scenario.changelog_A
            "I1" "statuses" (Fields Scenario.statuses_A Scenario.assignees_A)
            [Transition Scenario.t0 None (Some Scenario.S0)]
            [Transition Scenario.t1 (Some Scenario.S0) (Some Scenario.TARGET);
             Transition Scenario.t2 (Some Scenario.TARGET) (Some Scenario.S0)]
            _ (DStr Scenario.t1) 1672653600000000 false
            eq_refl eq_refl _ _ _ eq_refl).
  - vm_compute. reflexivity.
  - constructor; [|constructor].
    exists 1672567200000000. split; [vm_compute; reflexivity|left; lia].
  - exists 1672653600000000. split; [vm_compute; reflexivity|right; done].
Defined.

Section LookupFailures.
Variable strptime : string -> option Z.

Lemma as_datetime_errors q : only_value_error (as_datetime strptime q).
Proof.
  destruct q as [s|t]; simpl; [|done]. unfold parse_date.
  by destruct (strptime s).
Qed.

Lemma datetime_compare_errors a b :
  only_value_error (datetime_compare strptime a b).
Proof.
  unfold datetime_compare.
  pose proof (as_datetime_errors a) as Ha. pose proof (as_datetime_errors b) as Hb.
  destruct (as_datetime strptime a); simpl; [|done].
  by destruct (as_datetime strptime b).
Qed.

Lemma find_loop_errors q inclusive items : forall previous,
  only_value_error (find_at_time_loop strptime items q inclusive previous).
Proof.
  induction items as [|u items IH]; intros previous; [done|].
  cbn [find_at_time_loop].
  pose proof (datetime_compare_errors (DStr (t_date u)) q) as Hd.
  destruct (datetime_compare strptime (DStr (t_date u)) q) as [diff|]; simpl; [|done].
  destruct ((diff <? 0) || inclusive && (diff =? 0)); [apply IH|done].
Qed.

(** The part of [find_at_time] that follows the two dictionary reads. *)
Lemma find_on_timeline_failures q inclusive tl :
  let r := (let* previous := find_at_time_loop strptime tl q inclusive None in
            match previous with
            | Some p => Ok p
            | None => py_index tl 0
            end) in
  match tl with
  | [] => r = Err IndexError
  | first :: _ =>
      match strptime (t_date first), as_datetime strptime q with
      | Some _, Ok _ => only_value_error r
      | _, _ => r = Err ValueError
      end
  end.
Proof.
  cbv zeta. destruct tl as [|first rest]; [done|].
  cbn [find_at_time_loop]. unfold datetime_compare. simpl. unfold parse_date.
  destruct (strptime (t_date first)) as [z|]; simpl; [|done].
  pose proof (as_datetime_errors q) as Hq.
  destruct (as_datetime strptime q) as [zq|e]; simpl; [|simpl in Hq; by subst].
  destruct ((- (zq - z) <? 0) || inclusive && (- (zq - z) =? 0)); [|done].
  pose proof (find_loop_errors q inclusive rest (Some first)) as Hl.
  destruct (find_at_time_loop strptime rest q inclusive (Some first)) as [o|];
    simpl; [|done].
  by destruct o.
Qed.
End LookupFailures.

(** X15. How [find_at_time] fails on a query that is a string or a
    timezone-aware datetime: an unknown issue id or timeline key raises
    [KeyError]; an empty timeline raises [IndexError] whatever the query; on
    a non-empty timeline a first date or a query string that does not parse
    raises [ValueError]; for such queries no other exception is raised. *)
Theorem find_at_time_failures (strptime : string -> option Z)
    (changelog : changelog_t) (q : date_arg) (issue_id key : string)
    (inclusive : bool) :
  let r := find_at_time strptime changelog q issue_id key inclusive in
  match dict_get issue_id changelog with
  | None => r = Err KeyError
  | Some f =>
      if decide (key = "statuses" \/ key = "assignees")
      then
        match (if decide (key = "statuses") then statuses f else assignees f) with
        | [] => r = Err IndexError
        | first :: _ =>
            match strptime (t_date first), as_datetime strptime q with
            | Some _, Ok _ => only_value_error r
            | _, _ => r = Err ValueError
            end
        end
      else r = Err KeyError
  end.
Proof.
  cbv zeta. unfold find_at_time, dict_getitem.
  destruct (dict_get issue_id changelog) as [f|]; [|done]. simpl.
  unfold timeline.
  destruct (decide (key = "statuses")) as [Hs|Hs].
  - rewrite decide_True by auto. simpl.
    apply (find_on_timeline_failures strptime q inclusive (statuses f)).
  - destruct (decide (key = "assignees")) as [Ha|Ha].
    + rewrite decide_True by auto. simpl.
      apply (find_on_timeline_failures strptime q inclusive (assignees f)).
    + rewrite decide_False by (intros [?|?]; done). done.
Qed.

(** ** map_assignees *)

Lemma fold_result_app {A B : Type} (body : A -> B -> result A) (l1 l2 : list B) :
  forall a,
  fold_result body (l1 ++ l2) a
  = let* a' := fold_result body l1 a in fold_result body l2 a'.
Proof.
  induction l1 as [|b l1 IH]; intros a; [done|]. simpl.
  destruct (body a b) as [a'|]; simpl; [apply IH|done].
Qed.

Lemma fold_result_flat_map {A B C : Type} (body : A -> C -> result A)
    (g : B -> list C) (l : list B) : forall a,
  fold_result (fun a b => fold_result body (g b) a) l a
  = fold_result body (flat_map g l) a.
Proof.
  induction l as [|b l IH]; intros a; [done|]. simpl.
  rewrite fold_result_app.
  destruct (fold_result body (g b) a) as [a'|]; simpl; [apply IH|done].
Qed.

Lemma fold_result_ext {A B : Type} (f g : A -> B -> result A) (l : list B) :
  (forall a b, f a b = g a b) ->
  forall a, fold_result f l a = fold_result g l a.
Proof.
  intros Hfg. induction l as [|b l IH]; intros a; [done|]. simpl.
  rewrite Hfg. destruct (g a b); simpl; [apply IH|done].
Qed.

Section MapAssignees.
Variable strptime : string -> option Z.

Lemma assignee_step_events h m it :
  assignee_step strptime h m it
  = fold_result (event_step strptime) (item_events h it) m.
Proof.
  unfold assignee_step, item_events.
  destruct (bool_decide (n_field it = "assignee")
            && bool_decide (n_fieldtype it = "jira")); [|done].
  destruct (n_to it) as [to|]; [|done].
  simpl. unfold event_step. simpl.
  destruct (dict_get to m) as [known|]; [|done].
  destruct (parse_date strptime (nh_created h)); simpl; [|done].
  by destruct (parse_date strptime (a_created known)).
Qed.

(** The three nested loops are one loop over the assignments. *)
Lemma map_assignees_events response :
  map_assignees strptime response
  = fold_result (event_step strptime) (assignment_events response) [].
Proof.
  unfold map_assignees, assignment_events.
  rewrite <- fold_result_flat_map. apply fold_result_ext. intros m histories.
  rewrite <- fold_result_flat_map. apply fold_result_ext. intros m' h.
  rewrite <- fold_result_flat_map. apply fold_result_ext. intros m'' it.
  rewrite assignee_step_events. simpl.
  by destruct (fold_result (event_step strptime) (item_events h it) m'').
Qed.

Lemma In_keys_is_Some {V : Type} (k : string) (d : dict string V) :
  In k (keys d) -> is_Some (dict_get k d).
Proof.
  unfold keys. induction d as [|[k0 v0] d IH]; simpl; [done|].
  destruct (decide (k = k0)); [eauto|]. intros [Heq|Hin]; [by subst|by apply IH].
Qed.

Lemma latest_step seen m to fresh :
  is_Some (strptime (a_created fresh)) ->
  Forall (fun e => is_Some (strptime (a_created (snd e)))) seen ->
  latest_of strptime seen m ->
  exists m', event_step strptime m (to, fresh) = Ok m'
             /\ latest_of strptime (seen ++ [(to, fresh)]) m'.
Proof.
  intros [zn Hzn] Hseen (Hnd & Hrec & Hall). unfold event_step. simpl.
  destruct (dict_get to m) as [known|] eqn:Hk.
  - destruct (Hrec to known Hk) as [Hin Hmax].
    assert (Hzk : is_Some (strptime (a_created known))).
    { rewrite List.Forall_forall in Hseen. exact (Hseen _ Hin). }
    destruct Hzk as [zk Hzk]. unfold parse_date. rewrite Hzn, Hzk. simpl.
    eexists. split; [done|]. split; [by apply NoDup_keys_setitem|]. split.
    + intros to' info. destruct (decide (to = to')) as [<-|Hne].
      * rewrite dict_get_setitem_eq. intros [= <-]. split.
        -- apply in_or_app. destruct (zk <? zn); [right; by left|by left].
        -- intros info' z z' Hin' Hz Hz'.
           apply in_app_or in Hin' as [Hin'|[[= <-]|[]]].
           ++ pose proof (Hmax info' zk z' Hin' Hzk Hz') as Hle.
              destruct (Z.ltb_spec zk zn);
                [assert (z = zn) by congruence|assert (z = zk) by congruence]; lia.
           ++ assert (z' = zn) by congruence.
              destruct (Z.ltb_spec zk zn);
                [assert (z = zn) by congruence|assert (z = zk) by congruence]; lia.
      * rewrite dict_get_setitem_ne by done. intros Hg.
        destruct (Hrec to' info Hg) as [Hin' Hmax']. split; [apply in_or_app; by left|].
        intros info' z z' Hin'' Hz Hz'.
        apply in_app_or in Hin'' as [Hin''|[[= -> _]|[]]]; [|done].
        by apply (Hmax' info' z z').
    + intros to' info' Hin'. destruct (decide (to = to')) as [<-|Hne].
      * rewrite dict_get_setitem_eq. eauto.
      * rewrite dict_get_setitem_ne by done.
        apply in_app_or in Hin' as [Hin'|[[= -> _]|[]]]; [|done].
        by apply (Hall to' info').
  - eexists. split; [done|]. split; [by apply NoDup_keys_setitem|]. split.
    + intros to' info. destruct (decide (to = to')) as [<-|Hne].
      * rewrite dict_get_setitem_eq. intros [= <-].
        split; [apply in_or_app; right; by left|].
        intros info' z z' Hin' Hz Hz'.
        apply in_app_or in Hin' as [Hin'|[[= <-]|[]]].
        -- destruct (Hall to info' Hin') as [x Hx]. congruence.
        -- assert (z' = z) by congruence. lia.
      * rewrite dict_get_setitem_ne by done. intros Hg.
        destruct (Hrec to' info Hg) as [Hin' Hmax']. split; [apply in_or_app; by left|].
        intros info' z z' Hin'' Hz Hz'.
        apply in_app_or in Hin'' as [Hin''|[[= -> _]|[]]]; [|done].
        by apply (Hmax' info' z z').
    + intros to' info' Hin'. destruct (decide (to = to')) as [<-|Hne].
      * rewrite dict_get_setitem_eq. eauto.
      * rewrite dict_get_setitem_ne by done.
        apply in_app_or in Hin' as [Hin'|[[= -> _]|[]]]; [|done].
        by apply (Hall to' info').
Qed.

Lemma latest_fold rest : forall seen m,
  Forall (fun e => is_Some (strptime (a_created (snd e)))) (seen ++ rest) ->
  latest_of strptime seen m ->
  exists m', fold_result (event_step strptime) rest m = Ok m'
             /\ latest_of strptime (seen ++ rest) m'.
Proof.
  induction rest as [|[to fresh] rest IH]; intros seen m Hparse Hinv.
  - exists m. rewrite app_nil_r. done.
  - apply Forall_app in Hparse as [Hseen Hrest].
    apply Forall_cons in Hrest as [Hfresh Hrest]. simpl in Hfresh.
    destruct (latest_step seen m to fresh Hfresh Hseen Hinv) as (m1 & Hstep & Hinv1).
    cbn [fold_result]. rewrite Hstep. simpl.
    destruct (IH (seen ++ [(to, fresh)]) m1) as (m' & Hfold & Hinv').
    + rewrite <- app_assoc. simpl. apply Forall_app. split; [done|].
      constructor; done.
    + done.
    + exists m'. split; [done|]. by rewrite <- app_assoc in Hinv'.
Qed.

Lemma dict_setitem_fresh {V : Type} (k : string) (v : V) (d : dict string V) :
  ~ In k (keys d) -> dict_setitem k v d = d ++ [(k, v)].
Proof.
  unfold keys. induction d as [|[k0 v0] d IH]; simpl; [done|]. intros Hnot.
  rewrite decide_False by (intros ->; apply Hnot; by left).
  rewrite IH; [done|]. intros Hin. apply Hnot. by right.
Qed.

Lemma single_fold rest : forall m : dict string assignee_info,
  NoDup (keys (m ++ rest)) ->
  fold_result (event_step strptime) rest m = Ok (m ++ rest).
Proof.
  induction rest as [|[to fresh] rest IH]; intros m Hnd.
  - by rewrite app_nil_r.
  - assert (Hfresh : ~ In to (keys m)).
    { unfold keys in *. rewrite map_app in Hnd. simpl in Hnd.
      apply NoDup_app in Hnd as (_ & Hdisj & _). intros Hin.
      apply (Hdisj to); [by apply list_elem_of_In|]. apply list_elem_of_here. }
    cbn [fold_result]. unfold event_step. simpl.
    rewrite (dict_get_None to m Hfresh). simpl.
    rewrite (dict_setitem_fresh to fresh m Hfresh).
    rewrite IH; [by rewrite <- app_assoc|]. by rewrite <- app_assoc.
Qed.
End MapAssignees.

(** X16. When the timestamps of all assignments parse, [map_assignees]
    returns a dictionary over exactly the people that were assigned, and
    for each of them it records one of their assignments whose timestamp is
    the latest. *)
Theorem map_assignees_keeps_latest (strptime : string -> option Z)
    (response : list (list named_history)) :
  Forall (fun e => is_Some (strptime (a_created (snd e))))
         (assignment_events response) ->
  exists m,
    map_assignees strptime response = Ok m
    /\ NoDup (keys m)
    /\ (forall to, In to (keys m) <-> In to (keys (assignment_events response)))
    /\ forall to info, dict_get to m = Some info ->
         In (to, info) (assignment_events response)
         /\ forall info' z z',
              In (to, info') (assignment_events response) ->
              strptime (a_created info) = Some z ->
              strptime (a_created info') = Some z' -> z' <= z.
Proof.
  intros Hparse. rewrite map_assignees_events.
  destruct (latest_fold strptime (assignment_events response) [] [])
    as (m & Hm & Hnd & Hrec & Hall); [done| |].
  { split; [constructor|]. split; [done|]. intros to info' []. }
  simpl in *. exists m. split; [done|]. split; [done|]. split; [|exact Hrec].
  intros to. split.
  - intros Hin. destruct (In_keys_is_Some to m Hin) as [info Hg].
    destruct (Hrec to info Hg) as [Hev _]. unfold keys.
    change to with (fst (to, info)). by apply in_map.
  - intros Hin. unfold keys in Hin.
    apply in_map_iff in Hin as ([to' info'] & Heq & Hin). simpl in Heq. subst to'.
    destruct (Hall to info' Hin) as [info Hg]. by eapply dict_get_keys.
Qed.

Lemma map_assignees_keeps_latest_sample :
  Forall (fun e => is_Some (Iso.strptime (a_created (snd e))))
         (assignment_events Sample.histories_named)
  /\ map_assignees Iso.strptime Sample.histories_named
     = Ok [ (Scenario.A, AssigneeInfo "Ann Lee" Scenario.t2) ]
  /\ exists m,
       map_assignees Iso.strptime Sample.histories_named = Ok m
       /\ NoDup (keys m)
       /\ (forall to, In to (keys m)
                      <-> In to (keys (assignment_events Sample.histories_named)))
       /\ forall to info, dict_get to m = Some info ->
            In (to, info) (assignment_events Sample.histories_named)
            /\ forall info' z z',
                 In (to, info') (assignment_events Sample.histories_named) ->
                 Iso.strptime (a_created info) = Some z ->
                 Iso.strptime (a_created info') = Some z' -> z' <= z.
Proof.
  assert (H : Forall (fun e => is_Some (Iso.strptime (a_created (snd e))))
                (assignment_events Sample.histories_named)).
  { repeat constructor; simpl; vm_compute; eauto. }
  split; [exact H|]. split; [vm_compute; reflexivity|].
  exact (map_assignees_keeps_latest Iso.strptime Sample.histories_named H).
Defined.

(** X17. When nobody is assigned twice, [map_assignees] parses no timestamp:
    it returns the assignments in the order of the response, also when their
    timestamps are malformed. *)
Theorem map_assignees_single_assignments (strptime : string -> option Z)
    (response : list (list named_history)) :
  NoDup (keys (assignment_events response)) ->
  map_assignees strptime response = Ok (assignment_events response).
Proof.
  intros Hnd. rewrite map_assignees_events.
  by rewrite (single_fold strptime (assignment_events response) []).
Qed.

Lemma map_assignees_single_assignments_sample :
  NoDup (keys (assignment_events Sample.histories_single))
  /\ Iso.strptime "not-a-date" = None
  /\ map_assignees Iso.strptime Sample.histories_single
     = Ok [ (Scenario.A, AssigneeInfo "Ann" "not-a-date");
            (Scenario.B, AssigneeInfo "Bob" "neither") ].
Proof.
  assert (H : NoDup (keys (assignment_events Sample.histories_single))).
  { vm_compute. repeat constructor; rewrite ?list_elem_of_In; simpl;
      intuition discriminate. }
  split; [exact H|]. split; [vm_compute; reflexivity|].
  exact (map_assignees_single_assignments Iso.strptime Sample.histories_single H).
Defined.

(** ** info.analyze_issues *)

Section Counters.
Context {K : Type} `{EqDecision K}.
Implicit Types (c : dict K nat) (k : K).

Lemma counted_setitem c k n v :
  dict_get k c = Some n ->
  (counted (dict_setitem k v c) + n = counted c + v)%nat.
Proof.
  unfold counted, values.
  induction c as [|[k0 n0] c IH]; simpl; [done|].
  destruct (decide (k = k0)) as [->|Hne]; simpl.
  - intros [= ->]. lia.
  - intros Hg. specialize (IH Hg). lia.
Qed.

Lemma counted_setitem_new c k v :
  dict_get k c = None ->
  counted (dict_setitem k v c) = (counted c + v)%nat.
Proof.
  unfold counted, values.
  induction c as [|[k0 n0] c IH]; simpl; [intros _; lia|].
  destruct (decide (k = k0)) as [->|Hne]; simpl; [done|].
  intros Hg. rewrite (IH Hg). lia.
Qed.

Lemma counted_counter_add c k : counted (counter_add c k) = S (counted c).
Proof.
  unfold counter_add. destruct (dict_get k c) as [n|] eqn:Hg.
  - pose proof (counted_setitem c k n (S n) Hg). lia.
  - rewrite (counted_setitem_new c k _ Hg). lia.
Qed.

Lemma counted_fold l : forall c,
  counted (fold_left counter_add l c) = (length l + counted c)%nat.
Proof.
  induction l as [|x l IH]; intros c; [done|].
  cbn [fold_left]. rewrite IH, counted_counter_add. simpl. lia.
Qed.

Lemma counter_get_fold k l : forall c,
  dict_get k (fold_left counter_add l c)
  = match filter (fun x => x = k) l with
    | [] => dict_get k c
    | occ => Some (length occ
                   + match dict_get k c with Some n => n | None => 0 end)%nat
    end.
Proof.
  induction l as [|x l IH]; intros c; [done|].
  cbn [fold_left]. rewrite IH. rewrite filter_cons.
  assert (Hget : dict_get k (counter_add c x)
                 = if decide (x = k)
                   then Some (S (match dict_get k c with Some n => n | None => 0%nat end))
                   else dict_get k c).
  { unfold counter_add. destruct (decide (x = k)) as [->|Hne].
    - apply dict_get_setitem_eq.
    - by apply dict_get_setitem_ne. }
  rewrite Hget. destruct (decide (x = k)) as [->|Hne]; [|done].
  destruct (filter (fun x => x = k) l); simpl; f_equal; lia.
Qed.

Lemma Counter_NoDup (l : list K) : NoDup (keys (Counter l)).
Proof.
  unfold Counter.
  assert (Hgen : forall c, NoDup (keys c) ->
                   NoDup (keys (fold_left counter_add l c))).
  { induction l as [|x l IH]; intros c Hnd; [done|].
    cbn [fold_left]. apply IH. unfold counter_add. by apply NoDup_keys_setitem. }
  apply Hgen. constructor.
Qed.

Lemma counted_Counter (l : list K) : counted (Counter l) = length l.
Proof. unfold Counter. rewrite counted_fold. unfold counted. simpl. lia. Qed.

Lemma Counter_get k (l : list K) :
  dict_get k (Counter l)
  = match filter (fun x => x = k) l with
    | [] => None
    | occ => Some (length occ)
    end.
Proof.
  unfold Counter. rewrite counter_get_fold. simpl.
  destruct (filter (fun x => x = k) l); [done|]. f_equal. simpl. lia.
Qed.
End Counters.

(** X18. The report of [analyze_issues] is consistent: [total_issues] is
    the number of issues listed, the status counts and the assignee counts
    each add up to it, no key is counted twice, and the count under a name is
    the number of issues with that label, "Unassigned" standing for the
    issues without assignee. *)
Theorem analyze_issues_counts (response : search_response) :
  let a := analyze_issues response in
  let issues := match r_issues response with Some l => l | None => [] end in
  total_issues a = length issues
  /\ counted (status_counts a) = total_issues a
  /\ counted (assignee_counts a) = total_issues a
  /\ NoDup (keys (status_counts a))
  /\ NoDup (keys (assignee_counts a))
  /\ (forall name,
        dict_get name (assignee_counts a)
        = match filter (fun n => n = name) (map assignee_label issues) with
          | [] => None
          | occ => Some (length occ)
          end)
  /\ (forall status,
        dict_get status (status_counts a)
        = match filter (fun s => s = status)
                  (map (fun i => (l_status_id i, l_status_name i)) issues) with
          | [] => None
          | occ => Some (length occ)
          end).
Proof.
  cbv zeta. unfold analyze_issues. cbn [total_issues status_counts assignee_counts].
  split; [done|].
  split; [by rewrite counted_Counter, length_map|].
  split; [by rewrite counted_Counter, length_map|].
  split; [apply Counter_NoDup|]. split; [apply Counter_NoDup|].
  split.
  - intros name. apply Counter_get.
  - intros status. apply Counter_get.
Qed.

(** ** From the response to the allocation *)

Section Pipeline.
Variable strptime : string -> option Z.

Lemma build_changelog_In response id f :
  In (id, f) (build_changelog response) ->
  exists i, In i response /\ issue_id i = id /\ f = issue_fields i.
Proof.
  intros Hin.
  assert (Hnd : NoDup (keys (build_changelog response))).
  { unfold build_changelog.
    apply (fold_setitem_NoDup issue_id (fun _ i => issue_fields i)). constructor. }
  apply (In_dict_get _ _ _ Hnd) in Hin.
  unfold build_changelog in Hin. rewrite build_changelog_fold in Hin.
  destruct (last (filter (fun i => issue_id i = id) response)) as [i|] eqn:Hlast;
    [|done].
  inversion Hin; subst. exists i.
  apply last_Some_elem_of in Hlast. apply list_elem_of_filter in Hlast as [Hid Hel].
  split; [by apply list_elem_of_In|]. done.
Qed.

Lemma issue_timelines_ok i :
  newest_first strptime (issue_histories i) = true ->
  created_first strptime i = true ->
  is_timeline strptime (statuses (issue_fields i)) = true
  /\ is_timeline strptime (assignees (issue_fields i)) = true.
Proof.
  intros Hnew Hfirst.
  assert (Hc : exists c, strptime (issue_created i) = Some c).
  { unfold created_first in Hfirst.
    destruct (strptime (issue_created i)) as [c|]; [eauto|done]. }
  destruct Hc as [c Hc].
  rewrite issue_fields_statuses, issue_fields_assignees.
  split; cbn [is_timeline ascending initial_status initial_assignee t_from t_date];
    rewrite Hc; rewrite field_events_ascending by done; reflexivity.
Qed.
End Pipeline.

(** X19. From the response to the allocation: when, for every issue of the
    response, the change records arrive newest first and none is stamped
    before the creation of the issue, [build_changelog] followed by
    [calculate_workload] with a non-null target returns an allocation, and
    every duration in it is non-negative. *)
Theorem ordered_response_is_allocated (strptime : string -> option Z)
    (response : list issue) (target : string) :
  (forall i, In i response ->
     newest_first strptime (issue_histories i) = true
     /\ created_first strptime i = true) ->
  exists r,
    calculate_workload strptime (build_changelog response) (Some target) = Ok r
    /\ forall id scores a v, In (id, scores) r -> In (a, v) scores -> 0 <= v.
Proof.
  intros Hok.
  destruct (workload_loop_nonneg strptime target (build_changelog response) [])
    as (r & Hr & Hnn); [|constructor|].
  { intros id f Hin.
    destruct (build_changelog_In response id f Hin) as (i & Hi & _ & ->).
    destruct (Hok i Hi) as [Hnew Hfirst]. by apply issue_timelines_ok. }
  exists r. split; [exact Hr|].
  intros id scores a v Hin Hin'.
  unfold all_nonneg in Hnn. rewrite List.Forall_forall in Hnn.
  specialize (Hnn _ Hin). simpl in Hnn. rewrite List.Forall_forall in Hnn.
  exact (Hnn _ Hin').
Qed.

Lemma ordered_response_is_allocated_scenario_A :
  (forall i, In i [Scenario.issue_A] ->
     newest_first Iso.strptime (issue_histories i) = true
     /\ created_first Iso.strptime i = true)
  /\ exists r,
       calculate_workload Iso.strptime (build_changelog [Scenario.issue_A])
         (Some Scenario.TARGET) = Ok r
       /\ forall id scores a v, In (id, scores) r -> In (a, v) scores -> 0 <= v.
Proof.
  assert (H : forall i, In i [Scenario.issue_A] ->
     newest_first Iso.strptime (issue_histories i) = true
     /\ created_first Iso.strptime i = true).
  { intros i [<-|[]]. split; vm_compute; reflexivity. }
  split; [exact H|].
  exact (ordered_response_is_allocated Iso.strptime [Scenario.issue_A]
           Scenario.TARGET H).
Defined.

Lemma issues_are_independent_sample :
  NoDup (keys Sample.changelog_two)
  /\ calculate_workload Iso.strptime Sample.changelog_two (Some Scenario.TARGET)
     = Ok [ ("I1", [ (Some Scenario.A, Scenario.seconds 7200);
                     (Some Scenario.B, Scenario.seconds 10800) ]);
            ("I2", [ (Some Scenario.A, Scenario.seconds 7200) ]) ]
  /\ exists r1,
       calculate_workload Iso.strptime
         [ ("I2", Fields Scenario.statuses_A Scenario.assignees_A) ]
         (Some Scenario.TARGET) = Ok r1
       /\ dict_get "I2"
            [ ("I1", [ (Some Scenario.A, Scenario.seconds 7200);
                       (Some Scenario.B, Scenario.seconds 10800) ]);
              ("I2", [ (Some Scenario.A, Scenario.seconds 7200) ]) ]
          = dict_get "I2" r1.
Proof.
  assert (Hnd : NoDup (keys Sample.changelog_two)).
  { repeat constructor; simpl; rewrite ?list_elem_of_In; simpl;
      intuition discriminate. }
  assert (Hr : calculate_workload Iso.strptime Sample.changelog_two
                 (Some Scenario.TARGET)
               = Ok [ ("I1", [ (Some Scenario.A, Scenario.seconds 7200);
                               (Some Scenario.B, Scenario.seconds 10800) ]);
                      ("I2", [ (Some Scenario.A, Scenario.seconds 7200) ]) ])
    by (vm_compute; reflexivity).
  split; [exact Hnd|]. split; [exact Hr|].
  exact (issues_are_independent Iso.strptime Sample.changelog_two
           (Some Scenario.TARGET) "I2"
           (Fields Scenario.statuses_A Scenario.assignees_A) _ Hnd
           (or_intror (or_introl eq_refl)) Hr).
Defined.
